(** * directory-tool: the latest-file walker of [src/main.c]

    A shallow embedding of [main.c] and the properties of its walker,
    its accumulator and its filters.

    - C strings are [string]s (the bytes before the terminating NUL).
    - [time_t] is [Z]; the program only compares time values.
    - The operating system is a [Platform] record: what [opendir]/[readdir]
      and [stat] answer, what the cutoff test returns, and what
      [localtime]/[strftime] produce.
    - The process state threaded through every call is a [state]: the
      [LatestFileInfo] accumulator, the outcomes of the [malloc] calls still
      to come, and the chronological trace of what the process did. *)

From Stdlib Require Import ZArith String Ascii List Bool Lia Permutation.
Import ListNotations.
Open Scope string_scope.
Open Scope Z_scope.

(** ** Strings and formatted output *)

(** The newline character written ["\n"] in the C source. *)
Definition nl : string := String "010"%char EmptyString.

(** [printf]-style formatting restricted to the only directive the program
    uses, [%s]; a directive without an argument prints nothing. *)
Fixpoint format (fmt : string) (args : list string) : string :=
  match fmt with
  | EmptyString => EmptyString
  | String "%"%char (String "s"%char rest) =>
      match args with
      | a :: args' => a ++ format rest args'
      | [] => format rest []
      end
  | String c rest => String c (format rest args)
  end.

(** The first [n] bytes of [s]. *)
Fixpoint truncate (n : nat) (s : string) : string :=
  match n, s with
  | S n', String c s' => String c (truncate n' s')
  | _, _ => EmptyString
  end.

(** [snprintf(buf, size, fmt, ...)]: the string left in [buf], at most
    [size - 1] bytes followed by the terminating NUL. *)
Definition snprintf (size : nat) (fmt : string) (args : list string) : string :=
  truncate (size - 1) (format fmt args).

(** [strstr(haystack, needle)]: the suffix of [haystack] that starts at the
    first occurrence of [needle], [None] for the NULL pointer. *)
Fixpoint strstr (haystack needle : string) : option string :=
  if prefix needle haystack then Some haystack
  else match haystack with
       | EmptyString => None
       | String _ h' => strstr h' needle
       end.

(** ** Data of the program *)

(** [struct ProgramOptions]; a NULL [char *] is [None]. *)
Record ProgramOptions : Type := mkOptions {
  basePath : option string;
  beforeDate : option string;
  excludePattern : option string;
  verbose : bool
}.

(** [struct LatestFileInfo] ([path] and [time] in the source). *)
Record LatestFileInfo : Type := mkLatest {
  latest_path : option string;
  latest_time : Z
}.

(** The fields of [struct stat] that the program reads. *)
Record stat_t : Type := mkStat {
  st_isdir : bool;      (* S_ISDIR(st_mode) *)
  st_ctime : Z;
  st_mtime : Z
}.

(** What the operating system and the C library answer. *)
Record Platform : Type := mkPlatform {
  (* opendir + readdir: the d_name of every entry, in enumeration order,
     or None when the directory stream cannot be opened *)
  os_opendir : string -> option (list string);
  (* stat: None for the return value -1 *)
  os_stat : string -> option stat_t;
  (* what is_after_date(file_time, cutoff_date) returns: Some b for the
     value returned on line 106, None for the return on line 101 *)
  os_cutoff_test : Z -> string -> option bool;
  (* localtime, then strftime with the given format; None when localtime
     returns the null pointer *)
  os_strftime_local : string -> Z -> option string
}.

(** What the process does, in order. *)
Inductive event : Type :=
| Stdout (s : string)
| Stderr (s : string)
| Sys_stat (p : string)
| Sys_opendir (p : string).

Record state : Type := mkState {
  latest : LatestFileInfo;
  allocs : list bool;     (* outcome of each malloc to come; none left: success *)
  trace : list event
}.

Definition emit (e : event) (s : state) : state :=
  mkState (latest s) (allocs s) (trace s ++ [e]).

Definition printf (fmt : string) (args : list string) (s : state) : state :=
  emit (Stdout (format fmt args)) s.

Definition fprintf_stderr (fmt : string) (args : list string) (s : state) : state :=
  emit (Stderr (format fmt args)) s.

(** [malloc]: [true] for a non-NULL result. *)
Definition malloc (s : state) : bool * state :=
  match allocs s with
  | [] => (true, s)
  | b :: rest => (b, mkState (latest s) rest (trace s))
  end.

Definition set_latest (l : LatestFileInfo) (s : state) : state :=
  mkState l (allocs s) (trace s).

(** ** The accumulator *)

Definition is_null {A : Type} (p : option A) : bool :=
  match p with None => true | Some _ => false end.

Definition update_latest_file (path : string) (ctime mtime : Z) (s : state) : state :=
  let new_time := if ctime >? mtime then ctime else mtime in
  if is_null (latest_path (latest s)) || (new_time >? latest_time (latest s)) then
    let '(new_path, s1) := malloc s in
    if negb new_path then
      fprintf_stderr ("Error: Cannot allocate memory" ++ nl) [] s1
    else
      set_latest (mkLatest (Some path) new_time) s1
  else s.

(** ** Filters *)

Definition is_excluded (filename pattern : string) : bool :=
  negb (is_null (strstr filename pattern)).

(** The guard of the exclusion filter in [recurse_dir]:
    [options->excludePattern != NULL && is_excluded(dp->d_name, ...)]. *)
Definition exclude_filter (options : ProgramOptions) (d_name : string) : bool :=
  match excludePattern options with
  | None => false
  | Some pattern => is_excluded d_name pattern
  end.

(** The full path that [recurse_dir] builds in its [char path[1024]]. *)
Definition make_path (basePath d_name : string) : string :=
  snprintf 1024 "%s\%s" [basePath; d_name].

Section Walker.

Variable os : Platform.

(** [is_after_date]. The lines that compute the cutoff time are not valid
    C ([strftime] is called with three arguments on line 99, [mktime] with
    a [time_t] on line 105), so the source does not say which value the
    function returns for which arguments; the value is the platform's
    [os_cutoff_test]. What the source fixes is kept: the function returns
    either after printing [Error: Invalid date format] with the value 0
    (lines 100 and 101), or without printing (line 106), and it touches
    nothing else. *)
Definition is_after_date (file_time : Z) (cutoff_date : string) (s : state)
  : bool * state :=
  match os_cutoff_test os file_time cutoff_date with
  | None => (false, fprintf_stderr ("Error: Invalid date format" ++ nl) [] s)
  | Some answer => (answer, s)
  end.

(** The guard of the date filter in [recurse_dir]:
    [options->beforeDate != NULL && is_after_date(statbuf.st_mtime, ...)]. *)
Definition date_filter (options : ProgramOptions) (statbuf : stat_t) (s : state)
  : bool * state :=
  match beforeDate options with
  | None => (false, s)
  | Some cutoff_date => is_after_date (st_mtime statbuf) cutoff_date s
  end.

Section Readdir_loop.

(** The recursive call [recurse_dir(path, latest, options)]; [None] when
    the recursion is deeper than the fuel allows. *)
Variable recurse : string -> state -> option (Z * state).
Variable options : ProgramOptions.
Variable basePath : string.

(** The [while ((dp = readdir(dir)) != NULL)] loop over the entries that
    are still to be read. *)
Fixpoint readdir_loop (entries : list string) (s : state) : option state :=
  match entries with
  | [] => Some s
  | d_name :: rest =>
      if (d_name =? ".")%string || (d_name =? "..")%string then
        readdir_loop rest s
      else
        let path := make_path basePath d_name in
        let s := emit (Sys_stat path) s in
        match os_stat os path with
        | None =>
            readdir_loop rest
              (fprintf_stderr
                 ("Error: Cannot get the file information of %s" ++ nl)
                 [path] s)
        | Some statbuf =>
            let '(after, s) := date_filter options statbuf s in
            if after then readdir_loop rest s
            else if exclude_filter options d_name then readdir_loop rest s
            else
              let s :=
                update_latest_file path (st_ctime statbuf) (st_mtime statbuf) s in
              if st_isdir statbuf then
                let s :=
                  if verbose options
                  then printf ("Searching %s\" ++ nl) [path] s
                  else s in
                match recurse path s with
                | None => None
                | Some (_, s) => readdir_loop rest s
                end
              else readdir_loop rest s
        end
  end.

End Readdir_loop.

(** [recurse_dir]; [fuel] bounds the depth of the recursion, and the
    result is the returned [int] with the state the call leaves. *)
Fixpoint recurse_dir (fuel : nat) (options : ProgramOptions)
         (basePath : string) (s : state) : option (Z * state) :=
  match fuel with
  | O => None
  | S fuel' =>
      let s := emit (Sys_opendir basePath) s in
      match os_opendir os basePath with
      | None =>
          Some (1, fprintf_stderr ("Error: Cannot open %s" ++ nl) [basePath] s)
      | Some entries =>
          match readdir_loop (recurse_dir fuel' options) options basePath
                  entries s with
          | None => None
          | Some s => Some (0, s)
          end
      end
  end.

(** ** Command line *)

Definition print_usage (programName : string) (s : state) : state :=
  let s := printf ("Usage: %s -p <path> [-b <date>] [-e <pattern>]" ++ nl)
             [programName] s in
  let s := printf ("  -p: Specify the path to search" ++ nl) [] s in
  let s := printf
             ("  -b: Exclude files modified before this date (format YYYY-MM-DD)"
                ++ nl) [] s in
  let s := printf ("  -e: Exclude files matching this pattern" ++ nl) [] s in
  printf ("  -h: Display this help message" ++ nl) [] s.

(** Whether [c] is an option character of [optstring], and whether it
    takes an argument. *)
Fixpoint opt_lookup (c : ascii) (optstring : string) : option bool :=
  match optstring with
  | EmptyString => None
  | String o rest =>
      if (o =? c)%char && negb (c =? ":")%char then
        Some (match rest with String ":"%char _ => true | _ => false end)
      else opt_lookup c rest
  end.

(** The values [getopt] returns for the option characters of one argument
    [-cluster], each with its [optarg], and whether the next argument was
    taken as an option argument. *)
Fixpoint getopt_cluster (optstring cluster : string) (next : option string)
  : list (ascii * option string) * bool :=
  match cluster with
  | EmptyString => ([], false)
  | String c rest =>
      match opt_lookup c optstring with
      | None =>
          let '(r, used) := getopt_cluster optstring rest next in
          (("?"%char, None) :: r, used)
      | Some false =>
          let '(r, used) := getopt_cluster optstring rest next in
          ((c, None) :: r, used)
      | Some true =>
          match rest, next with
          | String _ _, _ => ([(c, Some rest)], false)
          | EmptyString, Some a => ([(c, Some a)], true)
          | EmptyString, None => ([("?"%char, None)], false)
          end
      end
  end.

(** The successive return values of [getopt(argc, argv, optstring)] over
    the arguments after [argv[0]], until it returns -1: [--] ends the
    options, and an argument that is no option is passed over (the
    default of the [getopt] declared by [<getopt.h>]). The message that
    [getopt] itself prints for a [?] is not recorded. *)
Fixpoint getopt_all (optstring : string) (args : list string)
  : list (ascii * option string) :=
  match args with
  | [] => []
  | a :: rest =>
      match a with
      | String "-"%char EmptyString => getopt_all optstring rest
      | String "-"%char (String "-"%char EmptyString) => []
      | String "-"%char cluster =>
          let '(r, used) := getopt_cluster optstring cluster (hd_error rest) in
          r ++ (if used
                then match rest with
                     | [] => []
                     | _ :: rest' => getopt_all optstring rest'
                     end
                else getopt_all optstring rest)
      | _ => getopt_all optstring rest
      end
  end.

(** The [while ((opt = getopt(...)) != -1)] loop of [parse_options] and
    the code after it. *)
Fixpoint parse_loop (programName : string) (opts : list (ascii * option string))
         (options : ProgramOptions) (s : state) : Z * ProgramOptions * state :=
  match opts with
  | [] =>
      if is_null (basePath options) then
        (1, options,
          print_usage programName
            (fprintf_stderr ("Error: Path is required." ++ nl) [] s))
      else (2, options, s)
  | (opt, optarg) :: rest =>
      if (opt =? "h")%char || (opt =? "?")%char then
        (0, options, print_usage programName s)
      else if (opt =? "p")%char then
        parse_loop programName rest
          (mkOptions optarg (beforeDate options) (excludePattern options)
             (verbose options)) s
      else if (opt =? "b")%char then
        parse_loop programName rest
          (mkOptions (basePath options) optarg (excludePattern options)
             (verbose options)) s
      else if (opt =? "e")%char then
        parse_loop programName rest
          (mkOptions (basePath options) (beforeDate options) optarg
             (verbose options)) s
      else if (opt =? "v")%char then
        parse_loop programName rest
          (mkOptions (basePath options) (beforeDate options)
             (excludePattern options) true) s
      else
        (1, options,
          print_usage programName
            (fprintf_stderr ("Error: Unknown option" ++ nl) [] s))
  end.

Definition parse_options (argv : list string) (s : state)
  : Z * ProgramOptions * state :=
  parse_loop (hd EmptyString argv) (getopt_all "hp:b:e:v" (tl argv))
    (mkOptions None None None false) s.

(** ** Reporting *)

(** [print_time]; [None] when [localtime] returns the null pointer, which
    the source hands to [strftime] unchecked: the behaviour is then
    undefined. The formatted time always fits the 30 bytes of the buffer. *)
Definition print_time (time : Z) (s : state) : option state :=
  match os_strftime_local os "%Y-%m-%d %H:%M:%S" time with
  | Some buffer => Some (printf ("%s" ++ nl) [buffer] s)
  | None => None
  end.

(** The value of a C expression used as a condition. *)
Definition truthy (z : Z) : bool := negb (z =? 0).

(** [main]: the exit status and the final state; [allocs] are the
    outcomes of the allocations of this run. [None] when the run has no
    exit status: the recursion is deeper than the fuel, or [print_time]
    runs into undefined behaviour. *)
Definition main (fuel : nat) (argv : list string) (allocs : list bool)
  : option (Z * state) :=
  let s := mkState (mkLatest None 0) allocs [] in
  let '(result, options, s) := parse_options argv s in
  if negb (result =? 2) then
    (* return result = 0 ? 0 : 1;  assigns the value of (0 ? 0 : 1) *)
    let result := if truthy 0 then 0 else 1 in
    Some (result, s)
  else
    match recurse_dir fuel options
            (match basePath options with Some p => p | None => EmptyString end)
            s with
    | None => None
    | Some (_, s) =>
        let report :=
          match latest_path (latest s) with
          | Some p =>
              if negb (latest_time (latest s) =? 0) then
                print_time (latest_time (latest s))
                  (printf "File: %s Date: " [p] s)
              else Some (printf ("No file found" ++ nl) [] s)
          | None => Some (printf ("No file found" ++ nl) [] s)
          end in
        match report with
        | Some s => Some (0, s)
        | None => None
        end
    end.

End Walker.


(** ** Offering a sequence of candidates to the accumulator *)

(** A candidate as [recurse_dir] offers it: path, [st_ctime], [st_mtime]. *)
Record candidate : Type := mkCandidate {
  cand_path : string;
  cand_ctime : Z;
  cand_mtime : Z
}.

Definition effectiveTime (c : candidate) : Z :=
  Z.max (cand_ctime c) (cand_mtime c).

Definition offer (s : state) (c : candidate) : state :=
  update_latest_file (cand_path c) (cand_ctime c) (cand_mtime c) s.

Definition offer_all (cs : list candidate) (s : state) : state :=
  fold_left offer cs s.

(** The state [main] starts from: [latest = {NULL, 0}], nothing printed. *)
Definition initial_state (allocs : list bool) : state :=
  mkState (mkLatest None 0) allocs [].

(** ** Path separators of the platforms, as the specification speaks of them *)

Inductive platform_kind : Type := Posix | Windows.

Definition path_separator (k : platform_kind) : string :=
  match k with
  | Posix => "/"
  | Windows => "\"
  end.

Definition spec_join_path (k : platform_kind) (parent name : string) : string :=
  parent ++ path_separator k ++ name.

(** ** A concrete platform: a file system given by tables, times in UTC *)

Fixpoint assoc {A : Type} (k : string) (l : list (string * A)) : option A :=
  match l with
  | [] => None
  | (k', v) :: l' => if (k' =? k)%string then Some v else assoc k l'
  end.

(** Year, month and day of the day that many days after 1970-01-01. *)
Definition civil_from_days (z : Z) : Z * Z * Z :=
  let z := z + 719468 in
  let era := z / 146097 in
  let doe := z - era * 146097 in
  let yoe := (doe - doe / 1460 + doe / 36524 - doe / 146096) / 365 in
  let doy := doe - (365 * yoe + yoe / 4 - yoe / 100) in
  let mp := (5 * doy + 2) / 153 in
  let d := doy - (153 * mp + 2) / 5 + 1 in
  let m := if mp <? 10 then mp + 3 else mp - 9 in
  (yoe + era * 400 + (if m <=? 2 then 1 else 0), m, d).

Definition digit (n : Z) : string :=
  String (ascii_of_nat (48 + Z.to_nat (n mod 10))) EmptyString.

Definition dec2 (n : Z) : string := digit (n / 10) ++ digit n.

Definition dec4 (n : Z) : string := dec2 (n / 100) ++ dec2 n.

(** [YYYY-MM-DD HH:MM:SS] in UTC; the format argument is the one
    [print_time] passes. This [localtime] accepts the times of the years 0
    to 9999 and no others. *)
Definition utc_strftime (fmt : string) (t : Z) : option string :=
  if (-62167219200 <=? t) && (t <? 253402300800) then
    let '(y, m, d) := civil_from_days (t / 86400) in
    let secs := t mod 86400 in
    Some (dec4 y ++ "-" ++ dec2 m ++ "-" ++ dec2 d ++ " "
            ++ dec2 (secs / 3600) ++ ":" ++ dec2 (secs / 60 mod 60) ++ ":"
            ++ dec2 (secs mod 60))
  else None.

(** The cutoff strings for which the example platforms answer the cutoff
    test without the error return, each with the time from which on the
    answer is 1. *)
Definition cutoff_table : list (string * Z) :=
  [("2024-03-01", 1709251200)].

Definition table_cutoff_test (file_time : Z) (cutoff_date : string)
  : option bool :=
  match assoc cutoff_date cutoff_table with
  | Some cutoff_time => Some (file_time - cutoff_time >=? 0)
  | None => None
  end.

Definition table_platform (dirs : list (string * list string))
           (stats : list (string * stat_t)) : Platform :=
  mkPlatform (fun p => assoc p dirs) (fun p => assoc p stats)
    table_cutoff_test utc_strftime.

(** The tree of the scenarios: [root] holds [a.txt], changed and modified
    on 2024-01-01, and the directory [b], changed and modified on
    2024-05-01, which holds [c.txt], changed and modified on 2024-06-01. *)
Definition t_jan : Z := 1704067200.
Definition t_may : Z := 1714521600.
Definition t_jun : Z := 1717200000.

Definition scenario_dirs : list (string * list string) :=
  [ ("root", ["."; ".."; "a.txt"; "b"]);
    ("root\b", ["."; ".."; "c.txt"]) ].

Definition scenario_stats : list (string * stat_t) :=
  [ ("root\a.txt", mkStat false t_jan t_jan);
    ("root\b", mkStat true t_may t_may);
    ("root\b\c.txt", mkStat false t_jun t_jun) ].

Definition scenario : Platform := table_platform scenario_dirs scenario_stats.

(** The standard output of a run, in order. *)
Fixpoint stdout_of (evs : list event) : string :=
  match evs with
  | [] => EmptyString
  | Stdout s :: evs' => s ++ stdout_of evs'
  | _ :: evs' => stdout_of evs'
  end.

Definition run (os : Platform) (argv : list string) : option (Z * string) :=
  match main os 10 argv [] with
  | Some (status, s) => Some (status, stdout_of (trace s))
  | None => None
  end.

(** ** Vocabulary of the properties *)

(** Every allocation still to come succeeds. *)
Definition all_succeed (al : list bool) : Prop := Forall (fun b => b = true) al.

(** A path handed to [stat] or [opendir] fits the 1024-byte buffer. *)
Definition short_event (e : event) : Prop :=
  match e with
  | Sys_stat p | Sys_opendir p => (String.length p <= 1023)%nat
  | _ => True
  end.

Definition short_latest (s s' : state) : Prop :=
  latest s' = latest s
  \/ exists p, latest_path (latest s') = Some p /\ (String.length p <= 1023)%nat.

(** [s'] is reached from [s] by a part of the walk below the root. *)
Definition walked (s s' : state) : Prop :=
  (exists evs, trace s' = (trace s ++ evs)%list /\ Forall short_event evs)
  /\ short_latest s s'.

(** The progress line of verbose mode, printed before the recursive call. *)
Definition announce (options : ProgramOptions) (path : string) (s : state)
  : state :=
  if verbose options then printf ("Searching %s\" ++ nl) [path] s else s.

(** Neither [.] nor [..]. *)
Definition real_entry (d_name : string) : Prop :=
  (d_name =? ".")%string || (d_name =? "..")%string = false.

(** A string of [n] copies of [c]. *)
Fixpoint replicate (n : nat) (c : ascii) : string :=
  match n with
  | O => EmptyString
  | S n' => String c (replicate n' c)
  end.

(** [root] holds one file whose times are the epoch. *)
Definition epoch_tree : Platform :=
  table_platform [("root", ["."; ".."; "old.txt"])]
    [("root\old.txt", mkStat false 0 0)].

(** [root] holds the directory [secret], which cannot be opened, after it
    the directory [b] with the file [c.txt], and the file [z.txt]. *)
Definition locked_tree : Platform :=
  table_platform
    [("root", ["."; ".."; "secret"; "b"; "z.txt"]);
     ("root\b", ["."; ".."; "c.txt"])]
    [("root\secret", mkStat true t_jan t_jan);
     ("root\b", mkStat true t_jan t_jan);
     ("root\b\c.txt", mkStat false t_jun t_jun);
     ("root\z.txt", mkStat false t_may t_may)].

(** A directory whose path fills the 1023 bytes of the buffer and which
    holds one entry: the path built for the entry is the directory's own. *)
Definition full_path : string := replicate 1023 "d".

Definition saturated_tree : Platform :=
  table_platform [(full_path, ["."; ".."; "x"])]
    [(full_path, mkStat true t_jan t_jan)].

(** [root] holds one file whose name is 1100 bytes long; the system knows
    it under the path that [recurse_dir] asks for. *)
Definition long_name : string := replicate 1100 "x".

Definition long_tree : Platform :=
  table_platform [("root", ["."; ".."; long_name])]
    [(truncate 1023 ("root\" ++ long_name), mkStat false t_jan t_jun)].

(** ** The candidates of a walk *)

(** The accumulator and the allocations to come agree in two states. *)
Definition same_acc (s t : state) : Prop :=
  latest s = latest t /\ allocs s = allocs t.

(** Whether the option character is one of those that [parse_options]
    stores and goes on from: [p], [b], [e] or [v]. *)
Definition stored_option (o : ascii * option string) : bool :=
  (fst o =? "p")%char || (fst o =? "b")%char || (fst o =? "e")%char
  || (fst o =? "v")%char.

(** Whether the option character is [h] or [?]. *)
Definition help_option (o : ascii * option string) : bool :=
  (fst o =? "h")%char || (fst o =? "?")%char.

(** What the [switch] of [parse_options] stores for [p], [b], [e] and
    [v]. *)
Definition store_option (o : ascii * option string) (options : ProgramOptions)
  : ProgramOptions :=
  if (fst o =? "p")%char then
    mkOptions (snd o) (beforeDate options) (excludePattern options)
      (verbose options)
  else if (fst o =? "b")%char then
    mkOptions (basePath options) (snd o) (excludePattern options)
      (verbose options)
  else if (fst o =? "e")%char then
    mkOptions (basePath options) (beforeDate options) (snd o) (verbose options)
  else
    mkOptions (basePath options) (beforeDate options) (excludePattern options)
      true.

Definition store_all (opts : list (ascii * option string))
           (options : ProgramOptions) : ProgramOptions :=
  fold_left (fun acc o => store_option o acc) opts options.

Definition not_path_option (o : ascii * option string) : bool :=
  negb (fst o =? "p")%char.

Definition is_dot (d_name : string) : bool :=
  (d_name =? ".")%string || (d_name =? "..")%string.

Section Candidates.

Variable os : Platform.
Variable options : ProgramOptions.

(** Whether the two filters of [recurse_dir] let the entry through to
    [update_latest_file]. *)
Definition passes_filters (d_name : string) (statbuf : stat_t) : bool :=
  negb (fst (date_filter os options statbuf (initial_state []))
        || exclude_filter options d_name).

(** The calls of [update_latest_file] that the [readdir] loop makes, in
    order; [below] gives those of a recursive call. *)
Fixpoint loop_candidates (below : string -> option (list candidate))
         (basePath : string) (entries : list string)
  : option (list candidate) :=
  match entries with
  | [] => Some []
  | d_name :: rest =>
      if is_dot d_name then loop_candidates below basePath rest
      else
        let path := make_path basePath d_name in
        match os_stat os path with
        | None => loop_candidates below basePath rest
        | Some statbuf =>
            if passes_filters d_name statbuf then
              let c := mkCandidate path (st_ctime statbuf) (st_mtime statbuf) in
              if st_isdir statbuf then
                match below path with
                | None => None
                | Some inside =>
                    match loop_candidates below basePath rest with
                    | None => None
                    | Some after => Some (c :: inside ++ after)%list
                    end
                end
              else
                match loop_candidates below basePath rest with
                | None => None
                | Some after => Some (c :: after)
                end
            else loop_candidates below basePath rest
        end
  end.

(** The calls of [update_latest_file] that [recurse_dir] makes, in order. *)
Fixpoint walk_candidates (fuel : nat) (basePath : string)
  : option (list candidate) :=
  match fuel with
  | O => None
  | S fuel' =>
      match os_opendir os basePath with
      | None => Some []
      | Some entries =>
          loop_candidates (walk_candidates fuel') basePath entries
      end
  end.

(** Following the paths as [recurse_dir] builds them, each cut to the
    1023 bytes of the buffer: no chain of directory paths that starts
    below [path] is longer than [n]. Whether a filter would stop the walk
    earlier is not looked at. *)
Fixpoint depth_within (n : nat) (path : string) : bool :=
  match os_opendir os path with
  | None => true
  | Some entries =>
      forallb
        (fun d_name =>
           if is_dot d_name then true
           else match os_stat os (make_path path d_name) with
                | None => true
                | Some statbuf =>
                    if st_isdir statbuf then
                      match n with
                      | O => false
                      | S n' => depth_within n' (make_path path d_name)
                      end
                    else true
                end)
        entries
  end.

End Candidates.

(** How a run of the walker and the list of its offers correspond. *)
Definition refines (run : option state) (cs : option (list candidate))
           (t : state) : Prop :=
  match run, cs with
  | Some s', Some cs => same_acc s' (offer_all cs t)
  | None, None => True
  | _, _ => False
  end.

(** An event that the walk under [options] can add to the trace: a line on
    standard output only in verbose mode. *)
Definition walk_event (options : ProgramOptions) (e : event) : Prop :=
  match e with
  | Stdout _ => verbose options = true
  | _ => True
  end.


(** An event that is not a line on standard output. *)
Definition quiet_event (e : event) : Prop :=
  match e with
  | Stdout _ => False
  | _ => True
  end.

(** * Properties *)

(** ** Strings *)

Lemma truncate_length_le (n : nat) (s : string) :
  (String.length (truncate n s) <= n)%nat.
Proof.
  revert s; induction n as [|n IH]; intros [|c s]; simpl; try lia.
  specialize (IH s); lia.
Qed.

Lemma truncate_short (n : nat) (s : string) :
  (String.length s <= n)%nat -> truncate n s = s.
Proof.
  revert s; induction n as [|n IH]; intros [|c s]; simpl; intros H;
    try reflexivity; try lia.
  f_equal; apply IH; lia.
Qed.

Lemma truncate_length_long (n : nat) (s : string) :
  (n <= String.length s)%nat -> String.length (truncate n s) = n.
Proof.
  revert s; induction n as [|n IH]; intros [|c s]; simpl; intros H;
    try reflexivity; try lia.
  f_equal; apply IH; lia.
Qed.

Lemma truncate_app (n : nat) :
  forall a b,
    (n <= String.length a)%nat -> truncate n (a ++ b) = truncate n a.
Proof.
  induction n as [|n IH]; intros a b H; [reflexivity|].
  destruct a as [|x a]; cbn in H; [lia|].
  cbn. f_equal. apply IH. lia.
Qed.

Lemma append_empty_r (s : string) : s ++ EmptyString = s.
Proof. induction s as [|c s IH]; simpl; [reflexivity | now rewrite IH]. Qed.

Lemma prefix_iff (p s : string) :
  prefix p s = true <-> exists post, s = p ++ post.
Proof.
  revert s; induction p as [|a p IH]; intros s; simpl.
  - destruct s; simpl; split; intros _; eauto.
  - destruct s as [|b s]; simpl.
    + split; [discriminate | intros [post H]; discriminate].
    + destruct (ascii_dec a b) as [->|Hab].
      * rewrite IH. split; intros [post H]; exists post.
        -- now rewrite H.
        -- now injection H.
      * split; [discriminate | intros [post H]; injection H; intros; congruence].
Qed.

Lemma strstr_unfold (haystack needle : string) :
  strstr haystack needle
  = if prefix needle haystack then Some haystack
    else match haystack with
         | EmptyString => None
         | String _ h' => strstr h' needle
         end.
Proof. destruct haystack; reflexivity. Qed.

Lemma strstr_iff (haystack needle : string) :
  strstr haystack needle <> None <->
  exists pre post, haystack = pre ++ needle ++ post.
Proof.
  split.
  - induction haystack as [|c h IH]; rewrite strstr_unfold.
    + destruct (prefix needle EmptyString) eqn:E; [|congruence].
      intros _. apply prefix_iff in E. destruct E as [post E].
      exists EmptyString, post. exact E.
    + destruct (prefix needle (String c h)) eqn:E.
      * intros _. apply prefix_iff in E. destruct E as [post E].
        exists EmptyString, post. exact E.
      * intros H. destruct (IH H) as (pre & post & ->).
        exists (String c pre), post. reflexivity.
  - intros (pre & post & ->).
    induction pre as [|c pre IH]; rewrite strstr_unfold.
    + assert (E : prefix needle (EmptyString ++ needle ++ post) = true)
        by (apply prefix_iff; exists post; reflexivity).
      rewrite E. discriminate.
    + destruct (prefix needle (String c pre ++ needle ++ post));
        [discriminate | exact IH].
Qed.

Lemma is_excluded_iff (filename pattern : string) :
  is_excluded filename pattern = true <->
  exists pre post, filename = pre ++ pattern ++ post.
Proof.
  rewrite <- strstr_iff. unfold is_excluded.
  destruct (strstr filename pattern); simpl; split; congruence.
Qed.

(** ** The accumulator *)

Lemma new_time_max (ctime mtime : Z) :
  (if ctime >? mtime then ctime else mtime) = Z.max ctime mtime.
Proof. destruct (Z.gtb_spec ctime mtime); lia. Qed.

Lemma update_adopt (s : state) (path : string) (ctime mtime : Z) :
  latest_path (latest s) = None \/ latest_time (latest s) < Z.max ctime mtime ->
  all_succeed (allocs s) ->
  exists al,
    update_latest_file path ctime mtime s
    = mkState (mkLatest (Some path) (Z.max ctime mtime)) al (trace s)
    /\ all_succeed al.
Proof.
  intros Hnew Hal. unfold update_latest_file. rewrite new_time_max.
  assert (G : is_null (latest_path (latest s))
              || (Z.max ctime mtime >? latest_time (latest s)) = true).
  { destruct Hnew as [-> | Hlt]; [reflexivity|].
    apply orb_true_iff; right. destruct (Z.gtb_spec (Z.max ctime mtime)
      (latest_time (latest s))); [reflexivity | lia]. }
  rewrite G. unfold malloc.
  destruct (allocs s) as [|b rest] eqn:E.
  - exists []. simpl. unfold set_latest. rewrite E.
    split; [reflexivity | constructor].
  - inversion Hal as [|? ? Hb Hrest]; subst. simpl.
    exists rest. split; [reflexivity | assumption].
Qed.

Lemma update_keep (s : state) (p path : string) (ctime mtime : Z) :
  latest_path (latest s) = Some p ->
  Z.max ctime mtime <= latest_time (latest s) ->
  update_latest_file path ctime mtime s = s.
Proof.
  intros Hp Hle. unfold update_latest_file. rewrite new_time_max, Hp. simpl.
  destruct (Z.gtb_spec (Z.max ctime mtime) (latest_time (latest s)));
    [lia | reflexivity].
Qed.

Lemma update_alloc_failure (s : state) (path : string) (ctime mtime : Z)
      (rest : list bool) :
  allocs s = false :: rest ->
  latest_path (latest s) = None \/ latest_time (latest s) < Z.max ctime mtime ->
  update_latest_file path ctime mtime s
  = mkState (latest s) rest
      (trace s ++ [Stderr ("Error: Cannot allocate memory" ++ nl)]).
Proof.
  intros Hal Hnew. unfold update_latest_file. rewrite new_time_max.
  assert (G : is_null (latest_path (latest s))
              || (Z.max ctime mtime >? latest_time (latest s)) = true).
  { destruct Hnew as [-> | Hlt]; [reflexivity|].
    apply orb_true_iff; right. destruct (Z.gtb_spec (Z.max ctime mtime)
      (latest_time (latest s))); [reflexivity | lia]. }
  rewrite G. unfold malloc. rewrite Hal. reflexivity.
Qed.

Lemma offer_all_snoc (cs : list candidate) (c : candidate) (s : state) :
  offer_all (cs ++ [c])%list s = offer (offer_all cs s) c.
Proof. unfold offer_all. now rewrite fold_left_app. Qed.

(** After a non-empty sequence of offers whose allocations succeed, the
    accumulator holds the first candidate of greatest effective time, and
    nothing was printed. *)
Lemma offer_all_first_max (cs : list candidate) (al : list bool) :
  all_succeed al -> cs <> [] ->
  exists pre c post al',
    cs = (pre ++ c :: post)%list
    /\ offer_all cs (initial_state al)
       = mkState (mkLatest (Some (cand_path c)) (effectiveTime c)) al' []
    /\ all_succeed al'
    /\ (forall c', In c' cs -> effectiveTime c' <= effectiveTime c)
    /\ (forall c', In c' pre -> effectiveTime c' < effectiveTime c).
Proof.
  intros Hal. induction cs as [|x l IH] using rev_ind; [congruence|].
  intros _. rewrite offer_all_snoc. destruct l as [|y l'].
  - simpl. destruct (update_adopt (initial_state al) (cand_path x)
      (cand_ctime x) (cand_mtime x)) as (al' & E & Hal');
      [left; reflexivity | exact Hal |].
    exists [], x, [], al'. unfold offer. rewrite E. simpl.
    repeat split; try assumption.
    + intros c' [<- | []]. lia.
    + intros c' [].
  - destruct IH as (pre & c & post & al' & Hsplit & E & Hal' & Hmax & Hfirst);
      [discriminate|].
    rewrite E. unfold offer.
    destruct (Z_lt_le_dec (effectiveTime c) (effectiveTime x)) as [Hlt | Hle].
    + destruct (update_adopt
        (mkState (mkLatest (Some (cand_path c)) (effectiveTime c)) al' [])
        (cand_path x) (cand_ctime x) (cand_mtime x)) as (al2 & E2 & Hal2);
        [right; exact Hlt | exact Hal' |].
      exists (y :: l'), x, [], al2. rewrite E2. simpl.
      repeat split; try assumption.
      * intros c' Hin. change (In c' ((y :: l') ++ [x])%list) in Hin.
        apply in_app_or in Hin. destruct Hin as [Hin | [<- | []]]; [|lia].
        specialize (Hmax c' Hin). lia.
      * intros c' Hin. specialize (Hmax c' Hin). lia.
    + rewrite (update_keep _ (cand_path c)); [|reflexivity | exact Hle].
      exists pre, c, (post ++ [x])%list, al'.
      repeat split; try assumption.
      * rewrite Hsplit, <- app_assoc. reflexivity.
      * intros c' Hin. apply in_app_or in Hin.
        destruct Hin as [Hin | [<- | []]]; [auto | exact Hle].
Qed.

(** ** Paths *)

Lemma format_join (basePath d_name : string) :
  format "%s\%s" [basePath; d_name] = basePath ++ "\" ++ d_name.
Proof.
  cbn [format]. now rewrite append_empty_r.
Qed.

Lemma make_path_truncate (basePath d_name : string) :
  make_path basePath d_name = truncate 1023 (basePath ++ "\" ++ d_name).
Proof.
  unfold make_path, snprintf. rewrite format_join. reflexivity.
Qed.

Lemma make_path_short (basePath d_name : string) :
  (String.length (make_path basePath d_name) <= 1023)%nat.
Proof. rewrite make_path_truncate. apply truncate_length_le. Qed.

(** ** The walk only adds to the trace, and only records built paths *)

Lemma walked_refl (s : state) : walked s s.
Proof.
  split; [exists []; split; [now rewrite app_nil_r | constructor] | now left].
Qed.

Lemma walked_trans (s1 s2 s3 : state) :
  walked s1 s2 -> walked s2 s3 -> walked s1 s3.
Proof.
  intros [(e1 & T1 & F1) L1] [(e2 & T2 & F2) L2]. split.
  - exists (e1 ++ e2)%list. split.
    + now rewrite T2, T1, app_assoc.
    + apply Forall_app; split; assumption.
  - destruct L2 as [E2 | S2]; [|right; exact S2].
    destruct L1 as [E1 | (p & Hp & Hlen)].
    + left. congruence.
    + right. exists p. rewrite E2. split; assumption.
Qed.

Lemma walked_emit (e : event) (s : state) : short_event e -> walked s (emit e s).
Proof.
  intros He. split; [|now left].
  exists [e]. split; [reflexivity | constructor; [exact He | constructor]].
Qed.

Lemma walked_update (path : string) (ctime mtime : Z) (s : state) :
  (String.length path <= 1023)%nat ->
  walked s (update_latest_file path ctime mtime s).
Proof.
  intros Hlen. unfold update_latest_file.
  destruct (is_null (latest_path (latest s)) || _); [|apply walked_refl].
  unfold malloc. destruct (allocs s) as [|[|] rest]; simpl.
  - split; [exists []; split; [now rewrite app_nil_r | constructor]|].
    right; exists path; split; [reflexivity | exact Hlen].
  - split; [exists []; split; [now rewrite app_nil_r | constructor]|].
    right; exists path; split; [reflexivity | exact Hlen].
  - split; [|now left]. eexists; split; [reflexivity|].
    constructor; [exact I | constructor].
Qed.

Section Walker_facts.

Variable os : Platform.

Lemma walked_date_filter (options : ProgramOptions) (statbuf : stat_t)
      (s : state) :
  walked s (snd (date_filter os options statbuf s)).
Proof.
  unfold date_filter, is_after_date.
  destruct (beforeDate options) as [d|]; [|apply walked_refl].
  destruct (os_cutoff_test os (st_mtime statbuf) d); simpl; [apply walked_refl|].
  apply walked_emit. exact I.
Qed.

Lemma date_filter_fst (options : ProgramOptions) (statbuf : stat_t)
      (s s0 : state) :
  fst (date_filter os options statbuf s) = fst (date_filter os options statbuf s0).
Proof.
  unfold date_filter, is_after_date.
  destruct (beforeDate options) as [d|]; [|reflexivity].
  destruct (os_cutoff_test os (st_mtime statbuf) d); reflexivity.
Qed.

Section Loop_facts.

Variable recurse : string -> state -> option (Z * state).
Variable options : ProgramOptions.
Variable basePath : string.

Hypothesis recurse_walked :
  forall p s r s',
    (String.length p <= 1023)%nat -> recurse p s = Some (r, s') -> walked s s'.

Lemma readdir_loop_walked (entries : list string) :
  forall s s',
    readdir_loop os recurse options basePath entries s = Some s' -> walked s s'.
Proof.
  induction entries as [|d_name rest IH]; intros s s' H; simpl in H.
  - injection H as <-. apply walked_refl.
  - destruct ((d_name =? ".")%string || (d_name =? "..")%string); [now apply IH|].
    set (path := make_path basePath d_name) in *.
    assert (W0 : walked s (emit (Sys_stat path) s))
      by (apply walked_emit; apply make_path_short).
    destruct (os_stat os path) as [statbuf|].
    + pose proof (walked_date_filter options statbuf (emit (Sys_stat path) s)) as W1.
      destruct (date_filter os options statbuf (emit (Sys_stat path) s))
        as [after s1]. simpl in W1.
      pose proof (walked_trans _ _ _ W0 W1) as W01.
      destruct after; [exact (walked_trans _ _ _ W01 (IH _ _ H))|].
      destruct (exclude_filter options d_name);
        [exact (walked_trans _ _ _ W01 (IH _ _ H))|].
      pose proof (walked_update path (st_ctime statbuf) (st_mtime statbuf) s1
                    (make_path_short _ _)) as W2.
      pose proof (walked_trans _ _ _ W01 W2) as W02.
      destruct (st_isdir statbuf);
        [|exact (walked_trans _ _ _ W02 (IH _ _ H))].
      match type of H with
      | match recurse path ?s3 with _ => _ end = _ =>
          assert (W3 : walked s s3);
          [destruct (verbose options);
           [apply (walked_trans _ _ _ W02); apply walked_emit; exact I
           | exact W02]
          | destruct (recurse path s3) as [[r s4]|] eqn:R; [|discriminate] ]
      end.
      apply recurse_walked in R; [|apply make_path_short].
      exact (walked_trans _ _ _ (walked_trans _ _ _ W3 R) (IH _ _ H)).
    + refine (walked_trans _ _ _ (walked_trans _ _ _ W0 _) (IH _ _ H)).
      apply walked_emit. exact I.
Qed.

End Loop_facts.

Lemma recurse_dir_root (fuel : nat) (options : ProgramOptions) :
  forall basePath s r s',
    recurse_dir os fuel options basePath s = Some (r, s') ->
    walked (emit (Sys_opendir basePath) s) s'.
Proof.
  induction fuel as [|fuel IH]; intros basePath s r s' H; simpl in H;
    [discriminate|].
  destruct (os_opendir os basePath) as [entries|].
  - destruct (readdir_loop _ _ _ _ _ _) as [s1|] eqn:L; [|discriminate].
    injection H as _ <-.
    refine (readdir_loop_walked _ _ _ _ _ _ _ L).
    intros p s0 r0 s0' Hlen R.
    apply (walked_trans _ (emit (Sys_opendir p) s0)).
    + apply walked_emit. exact Hlen.
    + exact (IH _ _ _ _ R).
  - injection H as _ <-. apply walked_emit. exact I.
Qed.

Lemma recurse_dir_walked (fuel : nat) (options : ProgramOptions)
      (basePath : string) (s : state) (r : Z) (s' : state) :
  (String.length basePath <= 1023)%nat ->
  recurse_dir os fuel options basePath s = Some (r, s') -> walked s s'.
Proof.
  intros Hlen H. apply (walked_trans _ (emit (Sys_opendir basePath) s)).
  - apply walked_emit. exact Hlen.
  - exact (recurse_dir_root _ _ _ _ _ _ H).
Qed.

Lemma walked_In (s s' : state) (e : event) :
  walked s s' -> In e (trace s) -> In e (trace s').
Proof.
  intros [(evs & -> & _) _] Hin. apply in_or_app. now left.
Qed.

Lemma recurse_dir_opens (fuel : nat) (options : ProgramOptions)
      (basePath : string) (s : state) (r : Z) (s' : state) :
  recurse_dir os fuel options basePath s = Some (r, s') ->
  In (Sys_opendir basePath) (trace s').
Proof.
  intros H. apply (walked_In _ _ _ (recurse_dir_root _ _ _ _ _ _ H)).
  simpl. apply in_or_app. right. now left.
Qed.

End Walker_facts.

(** ** One turn of the [readdir] loop *)

Lemma format_cannot_open (p : string) :
  format ("Error: Cannot open %s" ++ nl) [p] = "Error: Cannot open " ++ p ++ nl.
Proof. reflexivity. Qed.

Section Visit.

Variable os : Platform.
Variable recurse : string -> state -> option (Z * state).
Variable options : ProgramOptions.
Variable basePath : string.

Lemma date_filter_keeps (statbuf : stat_t) (s : state) :
  latest (snd (date_filter os options statbuf s)) = latest s
  /\ allocs (snd (date_filter os options statbuf s)) = allocs s.
Proof.
  unfold date_filter, is_after_date.
  destruct (beforeDate options) as [d|]; [|now split].
  destruct (os_cutoff_test os (st_mtime statbuf) d); now split.
Qed.

(** The turn of the loop for an entry whose [stat] succeeds. *)
Lemma readdir_loop_visit (d_name : string) (rest : list string)
      (statbuf : stat_t) (s : state) :
  real_entry d_name ->
  os_stat os (make_path basePath d_name) = Some statbuf ->
  readdir_loop os recurse options basePath (d_name :: rest) s
  = let path := make_path basePath d_name in
    let s0 := emit (Sys_stat path) s in
    let s1 := snd (date_filter os options statbuf s0) in
    if fst (date_filter os options statbuf s0) || exclude_filter options d_name
    then readdir_loop os recurse options basePath rest s1
    else
      let s2 := update_latest_file path (st_ctime statbuf) (st_mtime statbuf) s1 in
      if st_isdir statbuf then
        match recurse path (announce options path s2) with
        | None => None
        | Some (_, s3) => readdir_loop os recurse options basePath rest s3
        end
      else readdir_loop os recurse options basePath rest s2.
Proof.
  intros Hreal Hstat. unfold real_entry in Hreal.
  cbn [readdir_loop]. rewrite Hreal, Hstat. cbv zeta.
  destruct (date_filter os options statbuf
              (emit (Sys_stat (make_path basePath d_name)) s)) as [after s1].
  cbn [fst snd]. destruct after; [reflexivity|]. cbn [orb].
  destruct (exclude_filter options d_name); reflexivity.
Qed.

End Visit.

(** * The accumulator: claims C3 and C8 *)

(** C3. Offered any non-empty sequence of candidates from the empty state
    (every allocation succeeding), the accumulator ends with the greatest
    effective time among them and the path of the first candidate that has
    it; and offering a candidate whose effective time is not greater than
    the current best leaves the whole state as it was. *)
Theorem accumulator_holds_first_maximum :
  (forall (cs : list candidate) (al : list bool),
      all_succeed al -> cs <> [] ->
      exists pre c post,
        cs = (pre ++ c :: post)%list
        /\ latest (offer_all cs (initial_state al))
           = mkLatest (Some (cand_path c)) (effectiveTime c)
        /\ (forall c', In c' cs -> effectiveTime c' <= effectiveTime c)
        /\ (forall c', In c' pre -> effectiveTime c' < effectiveTime c))
  /\ (forall (s : state) (best : string) (c : candidate),
         latest_path (latest s) = Some best ->
         effectiveTime c <= latest_time (latest s) ->
         offer s c = s).
Proof.
  split.
  - intros cs al Hal Hne.
    destruct (offer_all_first_max cs al Hal Hne)
      as (pre & c & post & al' & Hsplit & E & _ & Hmax & Hfirst).
    exists pre, c, post. rewrite E. repeat split; assumption.
  - intros s best c Hbest Hle. unfold offer.
    exact (update_keep s best _ _ _ Hbest Hle).
Qed.

Lemma accumulator_holds_first_maximum_witness :
  let cs := [mkCandidate "a" 1 2; mkCandidate "b" 5 3; mkCandidate "c" 4 5] in
  let s := mkState (mkLatest (Some "b") 5) [] [] in
  (all_succeed [true] /\ cs <> [])
  /\ (exists pre c post,
         cs = (pre ++ c :: post)%list
         /\ latest (offer_all cs (initial_state [true]))
            = mkLatest (Some (cand_path c)) (effectiveTime c)
         /\ (forall c', In c' cs -> effectiveTime c' <= effectiveTime c)
         /\ (forall c', In c' pre -> effectiveTime c' < effectiveTime c))
  /\ (latest_path (latest s) = Some "b"
      /\ effectiveTime (mkCandidate "c" 4 5) <= latest_time (latest s))
  /\ offer s (mkCandidate "c" 4 5) = s.
Proof.
  intros cs s.
  assert (Hal : all_succeed [true]) by (repeat constructor).
  assert (Hne : cs <> []) by discriminate.
  assert (Hb : latest_path (latest s) = Some "b") by reflexivity.
  assert (Hle : effectiveTime (mkCandidate "c" 4 5) <= latest_time (latest s))
    by (vm_compute; discriminate).
  split; [split; assumption|].
  split; [exact (proj1 accumulator_holds_first_maximum cs [true] Hal Hne)|].
  split; [split; assumption|].
  exact (proj2 accumulator_holds_first_maximum s "b" _ Hb Hle).
Defined.

(** C8. When [malloc] fails while a better candidate is being recorded,
    [update_latest_file] prints its error message and leaves the stored
    path and time as they were; the turn of the loop then goes on as after
    any update, to the recursion for a directory and to the next entry. *)
Theorem allocation_failure_keeps_previous_best :
  (forall (s : state) (path : string) (ctime mtime : Z) (al : list bool),
      allocs s = false :: al ->
      latest_path (latest s) = None \/ latest_time (latest s) < Z.max ctime mtime ->
      update_latest_file path ctime mtime s
      = mkState (latest s) al
          (trace s ++ [Stderr ("Error: Cannot allocate memory" ++ nl)]))
  /\ (forall (os : Platform) (recurse : string -> state -> option (Z * state))
             (options : ProgramOptions) (basePath d_name : string)
             (rest : list string) (statbuf : stat_t) (s : state)
             (al : list bool),
         real_entry d_name ->
         os_stat os (make_path basePath d_name) = Some statbuf ->
         fst (date_filter os options statbuf s) || exclude_filter options d_name
         = false ->
         allocs s = false :: al ->
         latest_path (latest s) = None
         \/ latest_time (latest s) < Z.max (st_ctime statbuf) (st_mtime statbuf) ->
         let path := make_path basePath d_name in
         let s1 := snd (date_filter os options statbuf (emit (Sys_stat path) s)) in
         let s2 := mkState (latest s) al
                     (trace s1 ++ [Stderr ("Error: Cannot allocate memory" ++ nl)]) in
         readdir_loop os recurse options basePath (d_name :: rest) s
         = if st_isdir statbuf then
             match recurse path (announce options path s2) with
             | None => None
             | Some (_, s3) => readdir_loop os recurse options basePath rest s3
             end
           else readdir_loop os recurse options basePath rest s2).
Proof.
  split; [exact update_alloc_failure|].
  intros os recurse options basePath d_name rest statbuf s al
         Hreal Hstat Hpass Hal Hnew path s1 s2.
  rewrite (readdir_loop_visit os recurse options basePath d_name rest statbuf s
             Hreal Hstat).
  cbv zeta. fold path.
  rewrite (date_filter_fst os options statbuf (emit (Sys_stat path) s) s), Hpass.
  fold s1.
  destruct (date_filter_keeps os options statbuf (emit (Sys_stat path) s))
    as [Hl Ha]. fold s1 in Hl, Ha. simpl in Hl, Ha.
  assert (E : update_latest_file path (st_ctime statbuf) (st_mtime statbuf) s1 = s2).
  { unfold s2. rewrite <- Hl. apply update_alloc_failure.
    - now rewrite Ha.
    - now rewrite Hl. }
  rewrite E. reflexivity.
Qed.

Lemma allocation_failure_keeps_previous_best_witness :
  let s := mkState (mkLatest (Some "root\a.txt") t_jan) [false; true] [] in
  let options := mkOptions (Some "root") None None false in
  let file := mkStat false t_jun t_jun in
  let recurse := recurse_dir scenario 1 options in
  let s2 := mkState (latest s) [true]
              [Sys_stat "root\b\c.txt";
               Stderr ("Error: Cannot allocate memory" ++ nl)] in
  (allocs s = [false; true]
   /\ (latest_path (latest s) = None \/ latest_time (latest s) < Z.max t_jun t_jun)
   /\ real_entry "c.txt"
   /\ os_stat scenario (make_path "root\b" "c.txt") = Some file
   /\ fst (date_filter scenario options file s) || exclude_filter options "c.txt"
      = false)
  /\ update_latest_file "root\b\c.txt" t_jun t_jun s
     = mkState (mkLatest (Some "root\a.txt") t_jan) [true]
         [Stderr ("Error: Cannot allocate memory" ++ nl)]
  /\ readdir_loop scenario recurse options "root\b" ["c.txt"; "."] s
     = readdir_loop scenario recurse options "root\b" ["."] s2.
Proof.
  intros s options file recurse s2.
  assert (Ha : allocs s = [false; true]) by reflexivity.
  assert (Hn : latest_path (latest s) = None
               \/ latest_time (latest s) < Z.max t_jun t_jun)
    by (right; reflexivity).
  assert (H1 : real_entry "c.txt") by reflexivity.
  assert (H2 : os_stat scenario (make_path "root\b" "c.txt") = Some file)
    by reflexivity.
  assert (H3 : fst (date_filter scenario options file s)
               || exclude_filter options "c.txt" = false) by reflexivity.
  split; [repeat split; assumption|].
  split; [exact (proj1 allocation_failure_keeps_previous_best s "root\b\c.txt"
                   t_jun t_jun [true] Ha Hn)|].
  exact (proj2 allocation_failure_keeps_previous_best scenario recurse options
           "root\b" "c.txt" ["."] file s [true] H1 H2 H3 Ha Hn).
Defined.

(** * The filters and the path: claims C9 and C5 *)

(** C9, as the code has it. With no pattern configured no entry is
    excluded; with a pattern configured, empty or not, an entry is excluded
    exactly when the pattern occurs in the entry's name as a contiguous
    literal substring, so the empty pattern excludes every entry. *)
Theorem exclusion_is_substring_of_name :
  forall (options : ProgramOptions) (d_name : string),
    (excludePattern options = None -> exclude_filter options d_name = false)
    /\ (forall pattern,
           excludePattern options = Some pattern ->
           (exclude_filter options d_name = true
            <-> exists pre post, d_name = pre ++ pattern ++ post))
    /\ (excludePattern options = Some EmptyString ->
        exclude_filter options d_name = true).
Proof.
  intros options d_name. unfold exclude_filter. split; [|split].
  - intros ->. reflexivity.
  - intros pattern ->. apply is_excluded_iff.
  - intros ->. apply is_excluded_iff. exists d_name, EmptyString.
    simpl. now rewrite append_empty_r.
Qed.

Lemma exclusion_is_substring_of_name_witness :
  let unset := mkOptions (Some "root") None None false in
  let options := mkOptions (Some "root") None (Some "c.t") false in
  let empty := mkOptions (Some "root") None (Some EmptyString) false in
  (excludePattern unset = None
   /\ excludePattern options = Some "c.t"
   /\ excludePattern empty = Some EmptyString)
  /\ exclude_filter unset "c.txt" = false
  /\ (exclude_filter options "c.txt" = true
      <-> exists pre post, "c.txt" = pre ++ "c.t" ++ post)
  /\ exclude_filter empty "c.txt" = true.
Proof.
  intros unset options empty.
  assert (H0 : excludePattern unset = None) by reflexivity.
  assert (H1 : excludePattern options = Some "c.t") by reflexivity.
  assert (H2 : excludePattern empty = Some EmptyString) by reflexivity.
  split; [repeat split; assumption|].
  split; [exact (proj1 (exclusion_is_substring_of_name unset "c.txt") H0)|].
  split; [exact (proj1 (proj2 (exclusion_is_substring_of_name options "c.txt"))
                   "c.t" H1)|].
  exact (proj2 (proj2 (exclusion_is_substring_of_name empty "c.txt")) H2).
Defined.

(** C9 as stated fails: with the empty pattern configured ([-e] followed by an
    empty argument) every entry is excluded, and the run over the scenario
    tree finds no file. *)
Lemma empty_pattern_excludes_everything :
  exclude_filter (mkOptions (Some "root") None (Some EmptyString) false) "a.txt"
  = true
  /\ run scenario ["prog"; "-p"; "root"; "-e"; EmptyString]
     = Some (0, "No file found" ++ nl).
Proof. split; reflexivity. Qed.

(** C5, as the code has it. The full path of an entry is the parent path, a
    backslash and the entry name, cut to the 1023 bytes the buffer holds:
    the separator is the one written in the format string, that of Windows,
    whatever the platform. *)
Theorem path_joined_with_backslash :
  forall (basePath d_name : string),
    make_path basePath d_name
    = truncate 1023 (spec_join_path Windows basePath d_name)
    /\ make_path basePath d_name = truncate 1023 (basePath ++ "\" ++ d_name).
Proof.
  intros basePath d_name. split; apply make_path_truncate.
Qed.

(** C5 as stated fails: on a POSIX platform, whose separator is the slash,
    the path the walker builds is not the platform's join. *)
Lemma path_not_joined_with_platform_separator :
  make_path "root" "a.txt" <> spec_join_path Posix "root" "a.txt".
Proof. vm_compute. discriminate. Qed.

(** * The walker: claims C2, C7 and C10 *)

(** C2, as the code has it. A visited directory that passed both filters is
    offered to the accumulator and then recursed into, so its path is opened
    in every walk that completes; a visited directory that the cutoff filter
    or the exclusion filter removed is left by [continue]: the loop goes to
    the next entry with the accumulator as it was and without the recursive
    call. *)
Theorem directory_recursed_when_not_filtered :
  forall (os : Platform) (recurse : string -> state -> option (Z * state))
         (options : ProgramOptions) (basePath d_name : string)
         (rest : list string) (statbuf : stat_t) (s : state),
    real_entry d_name ->
    os_stat os (make_path basePath d_name) = Some statbuf ->
    st_isdir statbuf = true ->
    let path := make_path basePath d_name in
    let filtered :=
      fst (date_filter os options statbuf s) || exclude_filter options d_name in
    let s1 := snd (date_filter os options statbuf (emit (Sys_stat path) s)) in
    let s2 := update_latest_file path (st_ctime statbuf) (st_mtime statbuf) s1 in
    (filtered = true ->
     readdir_loop os recurse options basePath (d_name :: rest) s
     = readdir_loop os recurse options basePath rest s1
     /\ latest s1 = latest s)
    /\ (filtered = false ->
        readdir_loop os recurse options basePath (d_name :: rest) s
        = match recurse path (announce options path s2) with
          | None => None
          | Some (_, s3) => readdir_loop os recurse options basePath rest s3
          end)
    /\ (filtered = false ->
        forall fuel s',
          readdir_loop os (recurse_dir os fuel options) options basePath
            (d_name :: rest) s = Some s' ->
          In (Sys_opendir path) (trace s')).
Proof.
  intros os recurse options basePath d_name rest statbuf s Hreal Hstat Hdir
         path filtered s1 s2.
  assert (Hf : fst (date_filter os options statbuf (emit (Sys_stat path) s))
               || exclude_filter options d_name = filtered)
    by (unfold filtered; f_equal; apply date_filter_fst).
  split; [|split].
  - intros Ht. rewrite (readdir_loop_visit os recurse options basePath d_name
                          rest statbuf s Hreal Hstat).
    cbv zeta. fold path. rewrite Hf, Ht. split; [reflexivity|].
    exact (proj1 (date_filter_keeps os options statbuf (emit (Sys_stat path) s))).
  - intros Ht. rewrite (readdir_loop_visit os recurse options basePath d_name
                          rest statbuf s Hreal Hstat).
    cbv zeta. fold path. rewrite Hf, Ht, Hdir. reflexivity.
  - intros Ht fuel s'.
    rewrite (readdir_loop_visit os (recurse_dir os fuel options) options basePath
               d_name rest statbuf s Hreal Hstat).
    cbv zeta. fold path. rewrite Hf, Ht, Hdir. fold s1. fold s2.
    destruct (recurse_dir os fuel options path (announce options path s2))
      as [[r s3]|] eqn:R; [|discriminate].
    intros L. apply recurse_dir_opens in R.
    refine (walked_In s3 s' _ _ R).
    refine (readdir_loop_walked os _ options basePath _ rest s3 s' L).
    intros p s0 r0 s0' Hlen. apply recurse_dir_walked. exact Hlen.
Qed.

Lemma directory_recursed_when_not_filtered_witness :
  let options := mkOptions (Some "root") None None false in
  let excluding := mkOptions (Some "root") None (Some "b") false in
  let dir := mkStat true t_may t_may in
  let s := initial_state [] in
  (real_entry "b"
   /\ os_stat scenario (make_path "root" "b") = Some dir
   /\ st_isdir dir = true
   /\ fst (date_filter scenario options dir s) || exclude_filter options "b"
      = false
   /\ fst (date_filter scenario excluding dir s) || exclude_filter excluding "b"
      = true
   /\ readdir_loop scenario (recurse_dir scenario 3 options) options "root"
        ["b"] s
      = Some (mkState (mkLatest (Some "root\b\c.txt") t_jun) []
                [Sys_stat "root\b"; Sys_opendir "root\b";
                 Sys_stat "root\b\c.txt"]))
  /\ In (Sys_opendir (make_path "root" "b"))
       [Sys_stat "root\b"; Sys_opendir "root\b"; Sys_stat "root\b\c.txt"]
  /\ (readdir_loop scenario (recurse_dir scenario 3 excluding) excluding "root"
        ["b"; "a.txt"] s
      = readdir_loop scenario (recurse_dir scenario 3 excluding) excluding
          "root" ["a.txt"]
          (snd (date_filter scenario excluding dir
                  (emit (Sys_stat (make_path "root" "b")) s)))
      /\ latest (snd (date_filter scenario excluding dir
                        (emit (Sys_stat (make_path "root" "b")) s)))
         = latest s).
Proof.
  intros options excluding dir s.
  assert (H1 : real_entry "b") by reflexivity.
  assert (H2 : os_stat scenario (make_path "root" "b") = Some dir)
    by reflexivity.
  assert (H3 : st_isdir dir = true) by reflexivity.
  assert (H4 : fst (date_filter scenario options dir s)
               || exclude_filter options "b" = false) by reflexivity.
  assert (H4' : fst (date_filter scenario excluding dir s)
                || exclude_filter excluding "b" = true) by reflexivity.
  assert (H5 : readdir_loop scenario (recurse_dir scenario 3 options) options
                 "root" ["b"] s
               = Some (mkState (mkLatest (Some "root\b\c.txt") t_jun) []
                         [Sys_stat "root\b"; Sys_opendir "root\b";
                          Sys_stat "root\b\c.txt"])) by reflexivity.
  split; [repeat split; assumption|].
  split.
  - exact (proj2 (proj2 (directory_recursed_when_not_filtered scenario
                           (recurse_dir scenario 3 options) options "root" "b" []
                           dir s H1 H2 H3))
             H4 3%nat _ H5).
  - exact (proj1 (directory_recursed_when_not_filtered scenario
                    (recurse_dir scenario 3 excluding) excluding "root" "b"
                    ["a.txt"] dir s H1 H2 H3) H4').
Defined.

(** C2 as stated fails: with the exclusion pattern [b] the directory
    [root\b] is visited but never opened, and [root\b\c.txt], the newest
    entry of the tree and one that no filter removes, is never looked at:
    the run reports [root\a.txt]. *)
Lemma filtered_directory_is_not_traversed :
  exists s,
    main scenario 10 ["prog"; "-p"; "root"; "-e"; "b"] [] = Some (0, s)
    /\ In (Sys_stat "root\b") (trace s)
    /\ os_stat scenario "root\b" = Some (mkStat true t_may t_may)
    /\ ~ In (Sys_opendir "root\b") (trace s)
    /\ ~ In (Sys_stat "root\b\c.txt") (trace s)
    /\ exclude_filter (mkOptions (Some "root") None (Some "b") false) "c.txt"
       = false
    /\ latest s = mkLatest (Some "root\a.txt") t_jan
    /\ stdout_of (trace s) = "File: root\a.txt Date: 2024-01-01 00:00:00" ++ nl.
Proof.
  eexists. split; [vm_compute; reflexivity|].
  repeat split; try reflexivity.
  - simpl. tauto.
  - simpl. intros H. repeat (destruct H as [H | H]; [discriminate|]). exact H.
  - simpl. intros H. repeat (destruct H as [H | H]; [discriminate|]). exact H.
Qed.

Lemma recurse_dir_succ (os : Platform) (fuel : nat) (options : ProgramOptions)
      (dir : string) (s : state) :
  recurse_dir os (S fuel) options dir s
  = match os_opendir os dir with
    | None =>
        Some (1, fprintf_stderr ("Error: Cannot open %s" ++ nl) [dir]
                   (emit (Sys_opendir dir) s))
    | Some entries =>
        match readdir_loop os (recurse_dir os fuel options) options dir entries
                (emit (Sys_opendir dir) s) with
        | None => None
        | Some s1 => Some (0, s1)
        end
    end.
Proof. reflexivity. Qed.

Section Reading.

Variable os : Platform.
Variable options : ProgramOptions.
Variable fuel : nat.

Lemma recurse_dir_steps (p : string) (s : state) (r : Z) (s' : state) :
  (String.length p <= 1023)%nat ->
  recurse_dir os fuel options p s = Some (r, s') -> walked s s'.
Proof. apply recurse_dir_walked. Qed.

(** The loop over a listing, once past its first entry. *)
Lemma readdir_loop_tail (dir d_name : string) (rest : list string)
      (s s' : state) :
  readdir_loop os (recurse_dir os fuel options) options dir (d_name :: rest) s
  = Some s' ->
  exists s_mid,
    readdir_loop os (recurse_dir os fuel options) options dir rest s_mid
    = Some s'
    /\ (real_entry d_name -> In (Sys_stat (make_path dir d_name)) (trace s_mid)).
Proof.
  intros H. cbn [readdir_loop] in H. unfold real_entry.
  destruct ((d_name =? ".")%string || (d_name =? "..")%string);
    [exists s; split; [exact H | discriminate]|].
  set (path := make_path dir d_name) in *.
  assert (I0 : In (Sys_stat path) (trace (emit (Sys_stat path) s)))
    by (cbn; apply in_or_app; right; now left).
  destruct (os_stat os path) as [statbuf|].
  2:{ eexists. split; [exact H|]. intros _.
      cbn. apply in_or_app. left. exact I0. }
  pose proof (walked_date_filter os options statbuf (emit (Sys_stat path) s))
    as W1.
  destruct (date_filter os options statbuf (emit (Sys_stat path) s))
    as [after s1]. cbn [snd] in W1.
  pose proof (walked_In _ _ _ W1 I0) as I1.
  destruct after; [exists s1; split; [exact H | intros _; exact I1]|].
  destruct (exclude_filter options d_name);
    [exists s1; split; [exact H | intros _; exact I1]|].
  pose proof (walked_In _ _ _
                (walked_update path (st_ctime statbuf) (st_mtime statbuf) s1
                   (make_path_short _ _)) I1) as I2.
  destruct (st_isdir statbuf);
    [|eexists; split; [exact H | intros _; exact I2]].
  match type of H with
  | match recurse_dir os fuel options path ?s3 with _ => _ end = _ =>
      assert (I3 : In (Sys_stat path) (trace s3));
      [destruct (verbose options);
       [cbn; apply in_or_app; left; exact I2 | exact I2]
      | destruct (recurse_dir os fuel options path s3) as [[r s4]|] eqn:R;
        [|discriminate] ]
  end.
  exists s4. split; [exact H|]. intros _.
  exact (walked_In _ _ _ (recurse_dir_steps _ _ _ _ (make_path_short _ _) R) I3).
Qed.

Lemma readdir_loop_steps (dir : string) (entries : list string) (s s' : state) :
  readdir_loop os (recurse_dir os fuel options) options dir entries s = Some s' ->
  walked s s'.
Proof.
  apply readdir_loop_walked. intros p s0 r s0'. apply recurse_dir_steps.
Qed.

(** A completed loop has handed every entry of the listing to [stat]. *)
Lemma readdir_loop_stats_entries (dir : string) (entries : list string) :
  forall s s' d_name,
    readdir_loop os (recurse_dir os fuel options) options dir entries s
    = Some s' ->
    In d_name entries -> real_entry d_name ->
    In (Sys_stat (make_path dir d_name)) (trace s').
Proof.
  induction entries as [|h rest IH]; intros s s' d_name H Hin Hreal; [destruct Hin|].
  destruct (readdir_loop_tail dir h rest s s' H) as (s_mid & Hrest & Hh).
  destruct Hin as [-> | Hin].
  - exact (walked_In _ _ _ (readdir_loop_steps _ _ _ _ Hrest) (Hh Hreal)).
  - exact (IH _ _ _ Hrest Hin Hreal).
Qed.

End Reading.

(** A completed call of [recurse_dir] on a directory that opens has handed
    every entry of that directory to [stat]. *)
Lemma recurse_dir_stats_entries (os : Platform) (options : ProgramOptions)
      (fuel : nat) (dir : string) (entries : list string) (s : state) (r : Z)
      (s' : state) (d_name : string) :
  recurse_dir os fuel options dir s = Some (r, s') ->
  os_opendir os dir = Some entries ->
  In d_name entries -> real_entry d_name ->
  In (Sys_stat (make_path dir d_name)) (trace s').
Proof.
  destruct fuel as [|fuel]; [discriminate|].
  rewrite recurse_dir_succ. intros H Hopen. rewrite Hopen in H.
  destruct (readdir_loop _ _ _ _ _ _) as [s1|] eqn:L; [|discriminate].
  injection H as _ <-.
  exact (readdir_loop_stats_entries os options fuel dir entries _ _ d_name L).
Qed.

(** A completed loop has read every directory of the listing that passes
    the filters and opens. *)
Lemma readdir_loop_reads_directories (os : Platform) (options : ProgramOptions)
      (fuel : nat) (dir : string) (entries : list string) :
  forall (s s' : state) (d_name : string) (statbuf : stat_t)
         (inside : list string) (e_name : string),
    readdir_loop os (recurse_dir os fuel options) options dir entries s
    = Some s' ->
    In d_name entries -> real_entry d_name ->
    os_stat os (make_path dir d_name) = Some statbuf ->
    st_isdir statbuf = true ->
    (forall s0, fst (date_filter os options statbuf s0) = false) ->
    exclude_filter options d_name = false ->
    os_opendir os (make_path dir d_name) = Some inside ->
    In e_name inside -> real_entry e_name ->
    In (Sys_stat (make_path (make_path dir d_name) e_name)) (trace s').
Proof.
  induction entries as [|h rest IH];
    intros s s' d_name statbuf inside e_name H Hin Hreal Hstat Hdir Hdate Hexcl
           Hopen He Hreal_e; [destruct Hin|].
  destruct Hin as [-> | Hin].
  - rewrite (readdir_loop_visit os _ options dir d_name rest statbuf s Hreal Hstat)
      in H.
    cbv zeta in H. rewrite Hdate, Hexcl, Hdir in H. cbn [orb] in H.
    match type of H with
    | match recurse_dir os fuel options ?p ?s3 with _ => _ end = _ =>
        destruct (recurse_dir os fuel options p s3) as [[r s4]|] eqn:R;
        [|discriminate]
    end.
    pose proof (recurse_dir_stats_entries os options fuel _ inside _ r s4 e_name
                  R Hopen He Hreal_e) as I4.
    exact (walked_In _ _ _ (readdir_loop_steps os options fuel _ _ _ _ H) I4).
  - destruct (readdir_loop_tail os options fuel dir h rest s s' H)
      as (s_mid & Hrest & _).
    exact (IH _ _ _ _ _ _ Hrest Hin Hreal Hstat Hdir Hdate Hexcl Hopen He Hreal_e).
Qed.

(** C7, as the code has it. A directory that passed both filters and cannot
    be opened makes [recurse_dir] print [Error: Cannot open] with its path
    and return 1 with the accumulator untouched; the caller's loop drops
    that value and goes on with the entries that remain. Whatever could not
    be opened, a loop that completes has handed every entry of its listing
    to [stat] and has read every directory of the listing that passes the
    filters and opens; and the exit status of a run whose options parsed is
    0. (A directory that a filter removed is never opened, so nothing is
    printed about it.) *)
Theorem unopenable_directory_is_skipped :
  (forall (os : Platform) (fuel : nat) (options : ProgramOptions)
          (path : string) (s : state),
      os_opendir os path = None ->
      recurse_dir os (S fuel) options path s
      = Some (1, mkState (latest s) (allocs s)
                   (trace s ++ [Sys_opendir path;
                                Stderr ("Error: Cannot open " ++ path ++ nl)])))
  /\ (forall (os : Platform) (fuel : nat) (options : ProgramOptions)
             (basePath d_name : string) (rest : list string)
             (statbuf : stat_t) (s : state),
         real_entry d_name ->
         os_stat os (make_path basePath d_name) = Some statbuf ->
         st_isdir statbuf = true ->
         fst (date_filter os options statbuf s) || exclude_filter options d_name
         = false ->
         os_opendir os (make_path basePath d_name) = None ->
         let path := make_path basePath d_name in
         let s1 := snd (date_filter os options statbuf (emit (Sys_stat path) s)) in
         let s2 := announce options path
                     (update_latest_file path (st_ctime statbuf)
                        (st_mtime statbuf) s1) in
         readdir_loop os (recurse_dir os (S fuel) options) options basePath
           (d_name :: rest) s
         = readdir_loop os (recurse_dir os (S fuel) options) options basePath
             rest
             (mkState (latest s2) (allocs s2)
                (trace s2 ++ [Sys_opendir path;
                              Stderr ("Error: Cannot open " ++ path ++ nl)])))
  /\ (forall (os : Platform) (fuel : nat) (options : ProgramOptions)
             (dir : string) (entries : list string) (s s' : state),
         readdir_loop os (recurse_dir os fuel options) options dir entries s
         = Some s' ->
         (forall d_name,
             In d_name entries -> real_entry d_name ->
             In (Sys_stat (make_path dir d_name)) (trace s'))
         /\ (forall d_name statbuf inside e_name,
                In d_name entries -> real_entry d_name ->
                os_stat os (make_path dir d_name) = Some statbuf ->
                st_isdir statbuf = true ->
                fst (date_filter os options statbuf s)
                || exclude_filter options d_name = false ->
                os_opendir os (make_path dir d_name) = Some inside ->
                In e_name inside -> real_entry e_name ->
                In (Sys_stat (make_path (make_path dir d_name) e_name))
                  (trace s')))
  /\ (forall (os : Platform) (fuel : nat) (argv : list string)
             (allocs : list bool) (status : Z) (s : state),
         fst (fst (parse_options argv (initial_state allocs))) = 2 ->
         main os fuel argv allocs = Some (status, s) ->
         status = 0).
Proof.
  assert (Open : forall os fuel options path s,
             os_opendir os path = None ->
             recurse_dir os (S fuel) options path s
             = Some (1, mkState (latest s) (allocs s)
                          (trace s ++ [Sys_opendir path;
                                       Stderr ("Error: Cannot open " ++ path ++ nl)]))).
  { intros os fuel options path s Hopen. cbn [recurse_dir]. rewrite Hopen.
    unfold fprintf_stderr, emit. cbn [latest allocs trace].
    rewrite format_cannot_open, <- app_assoc. reflexivity. }
  split; [exact Open | split; [|split]].
  - intros os fuel options basePath d_name rest statbuf s Hreal Hstat Hdir
           Hpass Hopen path s1 s2.
    rewrite (readdir_loop_visit os _ options basePath d_name rest statbuf s
               Hreal Hstat).
    cbv zeta. fold path.
    rewrite (date_filter_fst os options statbuf (emit (Sys_stat path) s) s),
      Hpass, Hdir.
    fold s1. fold s2. rewrite (Open os fuel options path s2 Hopen). reflexivity.
  - intros os fuel options dir entries s s' H. split.
    + intros d_name. exact (readdir_loop_stats_entries os options fuel dir
                              entries s s' d_name H).
    + intros d_name statbuf inside e_name Hin Hreal Hstat Hdir Hpass.
      apply orb_false_iff in Hpass. destruct Hpass as [Hdate Hexcl].
      apply (readdir_loop_reads_directories os options fuel dir entries s s'
               d_name statbuf inside e_name H Hin Hreal Hstat Hdir);
        [|exact Hexcl].
      intros s0. now rewrite (date_filter_fst os options statbuf s0 s).
  - intros os fuel argv allocs status s Hparse. unfold main.
    fold (initial_state allocs).
    destruct (parse_options argv (initial_state allocs)) as [[result options] s1].
    cbn [fst] in Hparse. subst result. cbn [Z.eqb Pos.eqb negb].
    destruct (recurse_dir os fuel options _ s1) as [[r sw]|]; [|discriminate].
    match goal with
    | |- match ?report with _ => _ end = _ -> _ =>
        destruct report; [|discriminate]
    end.
    intros H. injection H as <- _. reflexivity.
Qed.

Lemma unopenable_directory_is_skipped_witness :
  let options := mkOptions (Some "root") None None false in
  let dir := mkStat true t_jan t_jan in
  let s := initial_state [] in
  let s2 := mkState (mkLatest (Some "root\secret") t_jan) []
              [Sys_stat "root\secret"] in
  let walk := [Sys_stat "root\secret"; Sys_opendir "root\secret";
               Stderr ("Error: Cannot open root\secret" ++ nl);
               Sys_stat "root\b"; Sys_opendir "root\b";
               Sys_stat "root\b\c.txt"; Sys_stat "root\z.txt"] in
  let s' := mkState (mkLatest (Some "root\b\c.txt") t_jun) [] walk in
  (os_opendir locked_tree "root\secret" = None
   /\ real_entry "secret"
   /\ os_stat locked_tree (make_path "root" "secret") = Some dir
   /\ st_isdir dir = true
   /\ fst (date_filter locked_tree options dir s) || exclude_filter options "secret"
      = false
   /\ os_opendir locked_tree (make_path "root" "secret") = None
   /\ readdir_loop locked_tree (recurse_dir locked_tree 1 options) options
        "root" ["."; ".."; "secret"; "b"; "z.txt"] s
      = Some s'
   /\ (In "z.txt" ["."; ".."; "secret"; "b"; "z.txt"] /\ real_entry "z.txt")
   /\ (In "b" ["."; ".."; "secret"; "b"; "z.txt"] /\ real_entry "b"
       /\ os_stat locked_tree (make_path "root" "b") = Some dir
       /\ fst (date_filter locked_tree options dir s) || exclude_filter options "b"
          = false
       /\ os_opendir locked_tree (make_path "root" "b")
          = Some ["."; ".."; "c.txt"]
       /\ In "c.txt" ["."; ".."; "c.txt"] /\ real_entry "c.txt")
   /\ fst (fst (parse_options ["prog"; "-p"; "root"] (initial_state []))) = 2
   /\ main locked_tree 5 ["prog"; "-p"; "root"] []
      = Some (0, mkState (mkLatest (Some "root\b\c.txt") t_jun) []
                   (Sys_opendir "root"
                      :: walk ++ [Stdout "File: root\b\c.txt Date: ";
                                  Stdout ("2024-06-01 00:00:00" ++ nl)])))
  /\ recurse_dir locked_tree 1 options "root\secret" s2
     = Some (1, mkState (latest s2) (allocs s2)
                  (trace s2 ++ [Sys_opendir "root\secret";
                                Stderr ("Error: Cannot open " ++ "root\secret"
                                          ++ nl)]))
  /\ readdir_loop locked_tree (recurse_dir locked_tree 1 options) options "root"
       ["secret"; "b"; "z.txt"] s
     = readdir_loop locked_tree (recurse_dir locked_tree 1 options) options
         "root" ["b"; "z.txt"]
         (mkState (latest s2) (allocs s2)
            (trace s2 ++ [Sys_opendir "root\secret";
                          Stderr ("Error: Cannot open " ++ "root\secret" ++ nl)]))
  /\ In (Sys_stat (make_path "root" "z.txt")) (trace s')
  /\ In (Sys_stat (make_path (make_path "root" "b") "c.txt")) (trace s')
  /\ 0 = 0.
Proof.
  intros options dir s s2 walk s'.
  assert (H1 : os_opendir locked_tree "root\secret" = None) by reflexivity.
  assert (H2 : real_entry "secret") by reflexivity.
  assert (H3 : os_stat locked_tree (make_path "root" "secret") = Some dir)
    by reflexivity.
  assert (H4 : st_isdir dir = true) by reflexivity.
  assert (H5 : fst (date_filter locked_tree options dir s)
               || exclude_filter options "secret" = false) by reflexivity.
  assert (H6 : os_opendir locked_tree (make_path "root" "secret") = None)
    by reflexivity.
  assert (L : readdir_loop locked_tree (recurse_dir locked_tree 1 options)
                options "root" ["."; ".."; "secret"; "b"; "z.txt"] s
              = Some s') by reflexivity.
  assert (Z1 : In "z.txt" ["."; ".."; "secret"; "b"; "z.txt"])
    by (cbn; tauto).
  assert (Z2 : real_entry "z.txt") by reflexivity.
  assert (B1 : In "b" ["."; ".."; "secret"; "b"; "z.txt"]) by (cbn; tauto).
  assert (B2 : real_entry "b") by reflexivity.
  assert (B3 : os_stat locked_tree (make_path "root" "b") = Some dir)
    by reflexivity.
  assert (B4 : fst (date_filter locked_tree options dir s)
               || exclude_filter options "b" = false) by reflexivity.
  assert (B5 : os_opendir locked_tree (make_path "root" "b")
               = Some ["."; ".."; "c.txt"]) by reflexivity.
  assert (B6 : In "c.txt" ["."; ".."; "c.txt"]) by (cbn; tauto).
  assert (B7 : real_entry "c.txt") by reflexivity.
  assert (H7 : fst (fst (parse_options ["prog"; "-p"; "root"] (initial_state [])))
               = 2) by reflexivity.
  assert (H8 : main locked_tree 5 ["prog"; "-p"; "root"] []
               = Some (0, mkState (mkLatest (Some "root\b\c.txt") t_jun) []
                            (Sys_opendir "root"
                               :: walk ++ [Stdout "File: root\b\c.txt Date: ";
                                           Stdout ("2024-06-01 00:00:00" ++ nl)])))
    by reflexivity.
  split; [repeat split; assumption|].
  split; [exact (proj1 unopenable_directory_is_skipped locked_tree 0%nat options
                   "root\secret" s2 H1)|].
  split; [exact (proj1 (proj2 unopenable_directory_is_skipped) locked_tree 0%nat
                   options "root" "secret" ["b"; "z.txt"] dir s H2 H3 H4 H5 H6)|].
  split; [exact (proj1 (proj1 (proj2 (proj2 unopenable_directory_is_skipped))
                          locked_tree 1%nat options "root" _ s s' L)
                   "z.txt" Z1 Z2)|].
  split; [exact (proj2 (proj1 (proj2 (proj2 unopenable_directory_is_skipped))
                          locked_tree 1%nat options "root" _ s s' L)
                   "b" dir _ "c.txt" B1 B2 B3 H4 B4 B5 B6 B7)|].
  symmetry.
  exact (proj2 (proj2 (proj2 unopenable_directory_is_skipped)) locked_tree 5%nat
           ["prog"; "-p"; "root"] [] 0 _ H7 H8).
Defined.

(** C7 as stated fails: with the exclusion pattern [sec] the directory
    [root\secret], which cannot be opened, is visited and left by the
    filter; it is never opened and nothing is printed about it. *)
Lemma filtered_unopenable_directory_is_not_reported :
  exists s,
    main locked_tree 5 ["prog"; "-p"; "root"; "-e"; "sec"] [] = Some (0, s)
    /\ os_stat locked_tree "root\secret" = Some (mkStat true t_jan t_jan)
    /\ os_opendir locked_tree "root\secret" = None
    /\ In (Sys_stat "root\secret") (trace s)
    /\ ~ In (Sys_opendir "root\secret") (trace s)
    /\ (forall message, ~ In (Stderr message) (trace s)).
Proof.
  eexists. split; [vm_compute; reflexivity|].
  repeat split; try reflexivity.
  - cbn. tauto.
  - cbn. intros H. repeat (destruct H as [H | H]; [discriminate|]). exact H.
  - intros message. cbn. intros H.
    repeat (destruct H as [H | H]; [discriminate|]). exact H.
Qed.

(** C10. The full path of every entry is cut to the 1023 bytes that the
    1024-byte buffer holds besides the terminating NUL. Below the root,
    every path handed to [stat] or [opendir] and every path the accumulator
    records is such a path; and an entry whose joined path is longer is
    looked up, offered and recursed into under the cut path, with nothing
    printed about the cut. *)
Theorem path_buffer_truncates_silently :
  (forall (basePath d_name : string),
      (String.length (make_path basePath d_name) <= 1023)%nat
      /\ make_path basePath d_name = truncate 1023 (basePath ++ "\" ++ d_name)
      /\ ((1023 < String.length (basePath ++ "\" ++ d_name))%nat ->
          String.length (make_path basePath d_name) = 1023%nat
          /\ make_path basePath d_name <> basePath ++ "\" ++ d_name))
  /\ (forall (os : Platform) (fuel : nat) (options : ProgramOptions)
             (basePath : string) (s : state) (r : Z) (s' : state),
         recurse_dir os fuel options basePath s = Some (r, s') ->
         exists evs,
           trace s' = (trace s ++ Sys_opendir basePath :: evs)%list
           /\ (forall p, In (Sys_stat p) evs \/ In (Sys_opendir p) evs ->
                         (String.length p <= 1023)%nat)
           /\ (latest s' = latest s
               \/ exists p, latest_path (latest s') = Some p
                            /\ (String.length p <= 1023)%nat))
  /\ (forall (os : Platform) (recurse : string -> state -> option (Z * state))
             (options : ProgramOptions) (basePath d_name : string)
             (rest : list string) (statbuf : stat_t) (s : state),
         real_entry d_name ->
         (1023 < String.length (basePath ++ "\" ++ d_name))%nat ->
         os_stat os (truncate 1023 (basePath ++ "\" ++ d_name)) = Some statbuf ->
         fst (date_filter os options statbuf s) || exclude_filter options d_name
         = false ->
         let path := truncate 1023 (basePath ++ "\" ++ d_name) in
         let s1 := snd (date_filter os options statbuf (emit (Sys_stat path) s)) in
         let s2 := update_latest_file path (st_ctime statbuf) (st_mtime statbuf)
                     s1 in
         readdir_loop os recurse options basePath (d_name :: rest) s
         = if st_isdir statbuf then
             match recurse path (announce options path s2) with
             | None => None
             | Some (_, s3) => readdir_loop os recurse options basePath rest s3
             end
           else readdir_loop os recurse options basePath rest s2).
Proof.
  split; [|split].
  - intros basePath d_name. split; [apply make_path_short|].
    split; [apply make_path_truncate|].
    intros Hlong. rewrite make_path_truncate.
    assert (L : String.length (truncate 1023 (basePath ++ "\" ++ d_name))
                = 1023%nat) by (apply truncate_length_long; lia).
    split; [exact L|]. intros E. rewrite E in L. lia.
  - intros os fuel options basePath s r s' H.
    destruct (recurse_dir_root os fuel options basePath s r s' H)
      as [(evs & T & F) L].
    exists evs. split; [|split].
    + rewrite T. cbn [emit trace]. rewrite <- app_assoc. reflexivity.
    + rewrite Forall_forall in F.
      intros p [Hin | Hin]; exact (F _ Hin).
    + exact L.
  - intros os recurse options basePath d_name rest statbuf s Hreal Hlong Hstat
           Hpass path s1 s2.
    rewrite <- make_path_truncate in Hstat.
    rewrite (readdir_loop_visit os recurse options basePath d_name rest statbuf s
               Hreal Hstat).
    cbv zeta. rewrite make_path_truncate. fold path.
    rewrite (date_filter_fst os options statbuf (emit (Sys_stat path) s) s), Hpass.
    reflexivity.
Qed.

Lemma path_buffer_truncates_silently_witness :
  let options := mkOptions (Some "root") None None false in
  let file := mkStat false t_jan t_jun in
  let s := initial_state [] in
  let path := truncate 1023 ("root" ++ "\" ++ long_name) in
  let recurse := recurse_dir long_tree 1 options in
  (real_entry long_name
   /\ (1023 < String.length ("root" ++ "\" ++ long_name))%nat
   /\ os_stat long_tree path = Some file
   /\ fst (date_filter long_tree options file s) || exclude_filter options long_name
      = false
   /\ recurse_dir long_tree 2 options "root" s
      = Some (0, mkState (mkLatest (Some path) t_jun) []
                   [Sys_opendir "root"; Sys_stat path]))
  /\ (String.length (make_path "root" long_name) = 1023%nat
      /\ make_path "root" long_name <> "root" ++ "\" ++ long_name)
  /\ (exists evs,
         [Sys_opendir "root"; Sys_stat path]
         = (trace s ++ Sys_opendir "root" :: evs)%list
         /\ (forall p, In (Sys_stat p) evs \/ In (Sys_opendir p) evs ->
                       (String.length p <= 1023)%nat)
         /\ (mkLatest (Some path) t_jun = latest s
             \/ exists p, Some path = Some p /\ (String.length p <= 1023)%nat))
  /\ readdir_loop long_tree recurse options "root" [long_name] s
     = readdir_loop long_tree recurse options "root" []
         (update_latest_file path t_jan t_jun
            (snd (date_filter long_tree options file (emit (Sys_stat path) s)))).
Proof.
  intros options file s path recurse.
  assert (H1 : real_entry long_name) by (vm_compute; reflexivity).
  assert (H2 : (1023 < String.length ("root" ++ "\" ++ long_name))%nat)
    by (apply Nat.ltb_lt; vm_compute; reflexivity).
  assert (H3 : os_stat long_tree path = Some file) by (vm_compute; reflexivity).
  assert (H4 : fst (date_filter long_tree options file s)
               || exclude_filter options long_name = false)
    by (vm_compute; reflexivity).
  assert (H5 : recurse_dir long_tree 2 options "root" s
               = Some (0, mkState (mkLatest (Some path) t_jun) []
                            [Sys_opendir "root"; Sys_stat path]))
    by (vm_compute; reflexivity).
  split; [repeat split; assumption|].
  split; [exact (proj2 (proj2 (proj1 path_buffer_truncates_silently
                                 "root" long_name)) H2)|].
  split; [exact (proj1 (proj2 path_buffer_truncates_silently) long_tree 2%nat
                   options "root" s 0 _ H5)|].
  exact (proj2 (proj2 path_buffer_truncates_silently) long_tree recurse options
           "root" long_name [] file s H1 H2 H3 H4).
Defined.

(** * The command line and the report: claims C4, C6 and C1 *)

(** C4, as the code has it. After a completed walk the program prints
    [No file found] when the accumulator holds no path or its time is 0,
    among them the case of a best candidate whose effective time is 0; it
    prints [File: <path> Date: ] and the stored time under the format
    [%Y-%m-%d %H:%M:%S] in local time when the accumulator holds a path,
    its time is not 0 and [localtime] accepts that time. The exit status is
    0 in both cases. For a time that [localtime] rejects the run has no
    exit status. *)
Theorem report_needs_path_and_nonzero_time :
  forall (os : Platform) (fuel : nat) (argv : list string) (al : list bool)
         (options : ProgramOptions) (s1 : state) (root : string) (r : Z)
         (sw : state),
    parse_options argv (initial_state al) = (2, options, s1) ->
    basePath options = Some root ->
    recurse_dir os fuel options root s1 = Some (r, sw) ->
    (latest_path (latest sw) = None \/ latest_time (latest sw) = 0 ->
     main os fuel argv al
     = Some (0, mkState (latest sw) (allocs sw)
                  (trace sw ++ [Stdout ("No file found" ++ nl)])))
    /\ (forall p date,
           latest_path (latest sw) = Some p ->
           latest_time (latest sw) <> 0 ->
           os_strftime_local os "%Y-%m-%d %H:%M:%S" (latest_time (latest sw))
           = Some date ->
           main os fuel argv al
           = Some (0, mkState (latest sw) (allocs sw)
                        (trace sw ++ [Stdout ("File: " ++ p ++ " Date: ");
                                      Stdout (date ++ nl)])))
    /\ (forall p,
           latest_path (latest sw) = Some p ->
           latest_time (latest sw) <> 0 ->
           os_strftime_local os "%Y-%m-%d %H:%M:%S" (latest_time (latest sw))
           = None ->
           main os fuel argv al = None).
Proof.
  intros os fuel argv al options s1 root r sw Hparse Hroot Hwalk.
  unfold main. fold (initial_state al). rewrite Hparse.
  cbn [Z.eqb Pos.eqb negb]. rewrite Hroot, Hwalk.
  split; [|split].
  - intros [Hnone | Hzero].
    + rewrite Hnone. reflexivity.
    + rewrite Hzero. cbn [Z.eqb negb].
      destruct (latest_path (latest sw)); reflexivity.
  - intros p date Hp Ht Hdate. rewrite Hp.
    destruct (Z.eqb_spec (latest_time (latest sw)) 0) as [E | _];
      [contradiction|].
    cbn [negb]. unfold print_time. rewrite Hdate.
    unfold printf, emit. cbn [latest allocs trace].
    rewrite <- app_assoc. reflexivity.
  - intros p Hp Ht Hdate. rewrite Hp.
    destruct (Z.eqb_spec (latest_time (latest sw)) 0) as [E | _];
      [contradiction|].
    cbn [negb]. unfold print_time. rewrite Hdate. reflexivity.
Qed.

Lemma report_needs_path_and_nonzero_time_witness :
  let options := mkOptions (Some "root") None None false in
  let sw := mkState (mkLatest (Some "root\b\c.txt") t_jun) []
              [Sys_opendir "root"; Sys_stat "root\a.txt"; Sys_stat "root\b";
               Sys_opendir "root\b"; Sys_stat "root\b\c.txt"] in
  (parse_options ["prog"; "-p"; "root"] (initial_state [])
   = (2, options, initial_state [])
   /\ basePath options = Some "root"
   /\ recurse_dir scenario 5 options "root" (initial_state []) = Some (0, sw)
   /\ latest_path (latest sw) = Some "root\b\c.txt"
   /\ latest_time (latest sw) <> 0
   /\ os_strftime_local scenario "%Y-%m-%d %H:%M:%S" (latest_time (latest sw))
      = Some "2024-06-01 00:00:00")
  /\ main scenario 5 ["prog"; "-p"; "root"] []
     = Some (0, mkState (latest sw) (allocs sw)
                  (trace sw ++ [Stdout ("File: " ++ "root\b\c.txt" ++ " Date: ");
                                Stdout ("2024-06-01 00:00:00" ++ nl)])).
Proof.
  intros options sw.
  assert (H1 : parse_options ["prog"; "-p"; "root"] (initial_state [])
               = (2, options, initial_state [])) by reflexivity.
  assert (H2 : basePath options = Some "root") by reflexivity.
  assert (H3 : recurse_dir scenario 5 options "root" (initial_state [])
               = Some (0, sw)) by reflexivity.
  assert (H4 : latest_path (latest sw) = Some "root\b\c.txt") by reflexivity.
  assert (H5 : latest_time (latest sw) <> 0) by discriminate.
  assert (H6 : os_strftime_local scenario "%Y-%m-%d %H:%M:%S"
                 (latest_time (latest sw)) = Some "2024-06-01 00:00:00")
    by reflexivity.
  split; [repeat split; assumption|].
  exact (proj1 (proj2 (report_needs_path_and_nonzero_time scenario 5%nat
                         ["prog"; "-p"; "root"] [] options (initial_state [])
                         "root" 0 sw H1 H2 H3))
           "root\b\c.txt" "2024-06-01 00:00:00" H4 H5 H6).
Defined.

(** C4 as stated fails: the only file of the tree has effective time 0; it
    is offered and recorded as the best candidate, and the program prints
    [No file found]. *)
Lemma candidate_at_epoch_is_not_reported :
  exists s,
    main epoch_tree 5 ["prog"; "-p"; "root"] [] = Some (0, s)
    /\ latest s = mkLatest (Some "root\old.txt") 0
    /\ stdout_of (trace s) = "No file found" ++ nl.
Proof. eexists. split; [vm_compute; reflexivity|]. split; reflexivity. Qed.

(** C6: what the code does at the failing input. With the help flag the
    program prints the usage text, performs no walk, and returns 1: the
    statement [return result = 0 ? 0 : 1;] returns the value of
    [0 ? 0 : 1]. *)
Theorem help_flag_exit_status :
  forall (os : Platform) (fuel : nat) (al : list bool),
    main os fuel ["prog"; "-h"] al
    = Some (1, print_usage "prog" (initial_state al)).
Proof. intros os fuel al. reflexivity. Qed.

(** Whenever the options do not parse to a walk, [main] returns 1. *)
Lemma no_walk_exit_status (os : Platform) (fuel : nat) (argv : list string)
      (al : list bool) :
  fst (fst (parse_options argv (initial_state al))) <> 2 ->
  main os fuel argv al
  = Some (1, snd (parse_options argv (initial_state al))).
Proof.
  intros H. unfold main. fold (initial_state al).
  destruct (parse_options argv (initial_state al)) as [[result options] s1].
  cbn [fst snd] in *. destruct (Z.eqb_spec result 2); [contradiction|].
  reflexivity.
Qed.

(** C1: what the code does. With a cutoff configured, the guard on lines
    141 and 142 hands [st_mtime] alone to [is_after_date] and leaves the
    entry by [continue] when the answer is 1: the entry is then neither
    offered nor recursed into, and [st_ctime] plays no part. Where the
    answer is the one line 106 computes, 1 from some cutoff time on, the
    entries removed are those modified at or after the cutoff, whose
    effective time is at or after it too, and the entries whose effective
    time is before the cutoff pass the date filter. *)
Theorem cutoff_filter_skips_entries_the_test_accepts :
  forall (os : Platform) (recurse : string -> state -> option (Z * state))
         (options : ProgramOptions) (dir d_name : string) (rest : list string)
         (statbuf : stat_t) (s : state) (cutoff_date : string),
    real_entry d_name ->
    os_stat os (make_path dir d_name) = Some statbuf ->
    beforeDate options = Some cutoff_date ->
    let s0 := emit (Sys_stat (make_path dir d_name)) s in
    (os_cutoff_test os (st_mtime statbuf) cutoff_date = Some true ->
     readdir_loop os recurse options dir (d_name :: rest) s
     = readdir_loop os recurse options dir rest s0)
    /\ (forall statbuf',
           st_mtime statbuf' = st_mtime statbuf ->
           fst (date_filter os options statbuf' s)
           = fst (date_filter os options statbuf s))
    /\ (forall cutoff_time,
           (forall t, os_cutoff_test os t cutoff_date
                      = Some (t - cutoff_time >=? 0)) ->
           (cutoff_time <= st_mtime statbuf ->
            cutoff_time <= Z.max (st_ctime statbuf) (st_mtime statbuf)
            /\ readdir_loop os recurse options dir (d_name :: rest) s
               = readdir_loop os recurse options dir rest s0)
           /\ (Z.max (st_ctime statbuf) (st_mtime statbuf) < cutoff_time ->
               fst (date_filter os options statbuf s0) = false)).
Proof.
  intros os recurse options dir d_name rest statbuf s cutoff_date Hreal Hstat
         Hcut s0.
  assert (Skip : os_cutoff_test os (st_mtime statbuf) cutoff_date = Some true ->
                 readdir_loop os recurse options dir (d_name :: rest) s
                 = readdir_loop os recurse options dir rest s0).
  { intros Htest.
    rewrite (readdir_loop_visit os recurse options dir d_name rest statbuf s
               Hreal Hstat).
    cbv zeta. fold s0. unfold date_filter, is_after_date.
    rewrite Hcut, Htest. reflexivity. }
  split; [exact Skip | split].
  - intros statbuf' Hm. unfold date_filter, is_after_date.
    now rewrite Hcut, Hm.
  - intros cutoff_time Htest. split.
    + intros Hle. split; [lia|]. apply Skip. rewrite Htest. f_equal.
      destruct (Z.geb_spec (st_mtime statbuf - cutoff_time) 0);
        [reflexivity | lia].
    + intros Hlt. unfold date_filter, is_after_date. rewrite Hcut, Htest.
      cbn [fst].
      destruct (Z.geb_spec (st_mtime statbuf - cutoff_time) 0);
        [lia | reflexivity].
Qed.

Lemma cutoff_filter_skips_entries_the_test_accepts_witness :
  let options := mkOptions (Some "root") (Some "2024-03-01") None false in
  let recurse := recurse_dir scenario 2 options in
  let newer := mkStat true t_may t_may in
  let s := initial_state [] in
  (real_entry "b"
   /\ os_stat scenario (make_path "root" "b") = Some newer
   /\ beforeDate options = Some "2024-03-01"
   /\ os_cutoff_test scenario (st_mtime newer) "2024-03-01" = Some true
   /\ (forall t, os_cutoff_test scenario t "2024-03-01"
                 = Some (t - 1709251200 >=? 0))
   /\ 1709251200 <= st_mtime newer)
  /\ readdir_loop scenario recurse options "root" ["b"; "a.txt"] s
     = readdir_loop scenario recurse options "root" ["a.txt"]
         (emit (Sys_stat (make_path "root" "b")) s)
  /\ (1709251200 <= Z.max (st_ctime newer) (st_mtime newer)
      /\ readdir_loop scenario recurse options "root" ["b"; "a.txt"] s
         = readdir_loop scenario recurse options "root" ["a.txt"]
             (emit (Sys_stat (make_path "root" "b")) s)).
Proof.
  intros options recurse newer s.
  assert (H1 : real_entry "b") by reflexivity.
  assert (H2 : os_stat scenario (make_path "root" "b") = Some newer)
    by reflexivity.
  assert (H3 : beforeDate options = Some "2024-03-01") by reflexivity.
  assert (H4 : os_cutoff_test scenario (st_mtime newer) "2024-03-01" = Some true)
    by reflexivity.
  assert (H5 : forall t, os_cutoff_test scenario t "2024-03-01"
                         = Some (t - 1709251200 >=? 0))
    by (intros t; reflexivity).
  assert (H6 : 1709251200 <= st_mtime newer) by (vm_compute; discriminate).
  split; [repeat split; assumption|].
  split.
  - exact (proj1 (cutoff_filter_skips_entries_the_test_accepts scenario recurse
                    options "root" "b" ["a.txt"] newer s "2024-03-01" H1 H2 H3)
             H4).
  - exact (proj1 (proj2 (proj2 (cutoff_filter_skips_entries_the_test_accepts
                                  scenario recurse options "root" "b" ["a.txt"]
                                  newer s "2024-03-01" H1 H2 H3))
                    1709251200 H5) H6).
Defined.

(** * Further properties of the walk *)

(** ** The walk as a sequence of offers *)

Lemma same_acc_refl (s : state) : same_acc s s.
Proof. split; reflexivity. Qed.

Lemma same_acc_trans (s t u : state) :
  same_acc s t -> same_acc t u -> same_acc s u.
Proof. intros [A B] [C D]. split; congruence. Qed.

Lemma same_acc_emit (e : event) (s : state) : same_acc (emit e s) s.
Proof. split; reflexivity. Qed.

Lemma same_acc_update (path : string) (ctime mtime : Z) (s t : state) :
  same_acc s t ->
  same_acc (update_latest_file path ctime mtime s)
    (update_latest_file path ctime mtime t).
Proof.
  destruct s as [ls al trs], t as [lt alt trt]. unfold same_acc. simpl.
  intros [-> ->]. unfold update_latest_file, malloc. simpl.
  destruct (is_null (latest_path lt) || _); [|now split].
  destruct alt as [|[|] rest]; simpl; now split.
Qed.

Lemma same_acc_offer_all (cs : list candidate) :
  forall s t, same_acc s t -> same_acc (offer_all cs s) (offer_all cs t).
Proof.
  induction cs as [|c cs IH]; intros s t H; simpl; [exact H|].
  apply IH. unfold offer. now apply same_acc_update.
Qed.

Lemma offer_all_app (cs ds : list candidate) (s : state) :
  offer_all (cs ++ ds)%list s = offer_all ds (offer_all cs s).
Proof. unfold offer_all. apply fold_left_app. Qed.

Section Refinement.

Variable os : Platform.
Variable options : ProgramOptions.

Lemma same_acc_date_filter (statbuf : stat_t) (s : state) :
  same_acc (snd (date_filter os options statbuf s)) s.
Proof. exact (date_filter_keeps os options statbuf s). Qed.

Lemma same_acc_announce (path : string) (s : state) :
  same_acc (announce options path s) s.
Proof. unfold announce. destruct (verbose options); split; reflexivity. Qed.

Lemma passes_filters_eq (d_name : string) (statbuf : stat_t) (s : state) :
  passes_filters os options d_name statbuf
  = negb (fst (date_filter os options statbuf s) || exclude_filter options d_name).
Proof.
  unfold passes_filters. f_equal. f_equal. apply date_filter_fst.
Qed.

Lemma loop_refines (recurse : string -> state -> option (Z * state))
      (below : string -> option (list candidate)) (basePath : string) :
  (forall p s t,
      same_acc s t ->
      refines (option_map snd (recurse p s)) (below p) t) ->
  forall entries s t,
    same_acc s t ->
    refines (readdir_loop os recurse options basePath entries s)
      (loop_candidates os options below basePath entries) t.
Proof.
  intros Hrec. induction entries as [|d_name rest IH]; intros s t Hst.
  - exact Hst.
  - cbn [readdir_loop loop_candidates]. unfold is_dot.
    destruct ((d_name =? ".")%string || (d_name =? "..")%string);
      [now apply IH|].
    set (path := make_path basePath d_name).
    destruct (os_stat os path) as [statbuf|].
    2:{ apply IH. exact (same_acc_trans _ _ _
                           (same_acc_emit _ _)
                           (same_acc_trans _ _ _ (same_acc_emit _ _) Hst)). }
    rewrite (passes_filters_eq d_name statbuf (emit (Sys_stat path) s)).
    pose proof (same_acc_date_filter statbuf (emit (Sys_stat path) s)) as H1.
    destruct (date_filter os options statbuf (emit (Sys_stat path) s))
      as [after s1]. cbn [fst snd] in *.
    assert (Hs1 : same_acc s1 t)
      by exact (same_acc_trans _ _ _ H1
                  (same_acc_trans _ _ _ (same_acc_emit _ _) Hst)).
    destruct after; cbn [orb negb]; [now apply IH|].
    destruct (exclude_filter options d_name); cbn [negb]; [now apply IH|].
    set (c := mkCandidate path (st_ctime statbuf) (st_mtime statbuf)).
    assert (Hs2 : same_acc
                    (update_latest_file path (st_ctime statbuf)
                       (st_mtime statbuf) s1) (offer t c))
      by (apply same_acc_update; exact Hs1).
    destruct (st_isdir statbuf).
    + match goal with
      | |- context [recurse path ?s3] =>
          assert (Hs3 : same_acc s3 (offer t c));
          [destruct (verbose options);
           [exact (same_acc_trans _ _ _ (same_acc_emit _ _) Hs2) | exact Hs2]
          | specialize (Hrec path s3 (offer t c) Hs3);
            destruct (recurse path s3) as [[r s4]|] ]
      end; destruct (below path) as [inside|]; cbn in Hrec;
        try contradiction; try exact I.
      specialize (IH s4 (offer_all inside (offer t c)) Hrec).
      destruct (readdir_loop os recurse options basePath rest s4),
        (loop_candidates os options below basePath rest);
        cbn in IH |- *; try contradiction; try exact I.
      change (offer_all (c :: inside ++ l) t)
        with (offer_all (inside ++ l)%list (offer t c)).
      rewrite offer_all_app. exact IH.
    + specialize (IH _ _ Hs2).
      destruct (readdir_loop os recurse options basePath rest _),
        (loop_candidates os options below basePath rest);
        cbn in IH |- *; try contradiction; try exact I.
      exact IH.
Qed.

Lemma walk_refines (fuel : nat) :
  forall basePath s t,
    same_acc s t ->
    refines (option_map snd (recurse_dir os fuel options basePath s))
      (walk_candidates os options fuel basePath) t.
Proof.
  induction fuel as [|fuel IH]; intros basePath s t Hst; [exact I|].
  cbn [recurse_dir walk_candidates].
  destruct (os_opendir os basePath) as [entries|].
  - pose proof (loop_refines (recurse_dir os fuel options)
                  (walk_candidates os options fuel) basePath IH entries
                  (emit (Sys_opendir basePath) s) t
                  (same_acc_trans _ _ _ (same_acc_emit _ _) Hst)) as H.
    destruct (readdir_loop _ _ _ _ _ _); exact H.
  - cbn. exact (same_acc_trans _ _ _ (same_acc_emit _ _)
                  (same_acc_trans _ _ _ (same_acc_emit _ _) Hst)).
Qed.

End Refinement.

Lemma recurse_dir_value (os : Platform) (fuel : nat) (options : ProgramOptions)
      (basePath : string) (s : state) (r : Z) (s' : state) :
  recurse_dir os fuel options basePath s = Some (r, s') ->
  r = if is_null (os_opendir os basePath) then 1 else 0.
Proof.
  destruct fuel as [|fuel]; cbn [recurse_dir]; [discriminate|].
  destruct (os_opendir os basePath) as [entries|]; cbn [is_null].
  - destruct (readdir_loop _ _ _ _ _ _); [|discriminate].
    intros H. now injection H as <- _.
  - intros H. now injection H as <- _.
Qed.

Lemma walk_refines_some (os : Platform) (options : ProgramOptions) (fuel : nat)
      (basePath : string) (s : state) (r : Z) (s' : state) :
  recurse_dir os fuel options basePath s = Some (r, s') ->
  exists cs,
    walk_candidates os options fuel basePath = Some cs
    /\ same_acc s' (offer_all cs s).
Proof.
  intros H.
  pose proof (walk_refines os options fuel basePath s s (same_acc_refl s)) as R.
  rewrite H in R. cbn in R.
  destruct (walk_candidates os options fuel basePath) as [cs|]; [|contradiction].
  exists cs. split; [reflexivity | exact R].
Qed.

Lemma walk_refines_back (os : Platform) (options : ProgramOptions) (fuel : nat)
      (basePath : string) (s : state) (cs : list candidate) :
  walk_candidates os options fuel basePath = Some cs ->
  exists r s',
    recurse_dir os fuel options basePath s = Some (r, s')
    /\ same_acc s' (offer_all cs s).
Proof.
  intros H.
  pose proof (walk_refines os options fuel basePath s s (same_acc_refl s)) as R.
  rewrite H in R.
  destruct (recurse_dir os fuel options basePath s) as [[r s']|];
    [|contradiction].
  exists r, s'. split; [reflexivity | exact R].
Qed.

(** X1. The accumulator that [recurse_dir] leaves is the one that offering
    its candidates in order leaves, with the same allocations used; and the
    walk returns exactly when its list of candidates is defined. *)
Theorem walk_is_sequence_of_offers :
  forall (os : Platform) (options : ProgramOptions) (fuel : nat)
         (basePath : string) (s : state),
    (forall r s',
        recurse_dir os fuel options basePath s = Some (r, s') ->
        exists cs,
          walk_candidates os options fuel basePath = Some cs
          /\ latest s' = latest (offer_all cs s)
          /\ allocs s' = allocs (offer_all cs s))
    /\ (forall cs,
           walk_candidates os options fuel basePath = Some cs ->
           exists r s',
             recurse_dir os fuel options basePath s = Some (r, s')
             /\ latest s' = latest (offer_all cs s)
             /\ allocs s' = allocs (offer_all cs s)).
Proof.
  intros os options fuel basePath s. split.
  - intros r s' H.
    destruct (walk_refines_some os options fuel basePath s r s' H)
      as (cs & E & A & B).
    exists cs. repeat split; assumption.
  - intros cs H.
    destruct (walk_refines_back os options fuel basePath s cs H)
      as (r & s' & E & A & B).
    exists r, s'. repeat split; assumption.
Qed.

Lemma walk_is_sequence_of_offers_witness :
  let options := mkOptions (Some "root") None (Some "a.t") false in
  let s := initial_state [] in
  let cs := [mkCandidate "root\b" t_may t_may;
             mkCandidate "root\b\c.txt" t_jun t_jun] in
  let s' := mkState (mkLatest (Some "root\b\c.txt") t_jun) []
              [Sys_opendir "root"; Sys_stat "root\a.txt"; Sys_stat "root\b";
               Sys_opendir "root\b"; Sys_stat "root\b\c.txt"] in
  (recurse_dir scenario 3 options "root" s = Some (0, s')
   /\ walk_candidates scenario options 3 "root" = Some cs)
  /\ (exists cs',
         walk_candidates scenario options 3 "root" = Some cs'
         /\ latest s' = latest (offer_all cs' s)
         /\ allocs s' = allocs (offer_all cs' s))
  /\ (exists r s'',
         recurse_dir scenario 3 options "root" s = Some (r, s'')
         /\ latest s'' = latest (offer_all cs s)
         /\ allocs s'' = allocs (offer_all cs s)).
Proof.
  intros options s cs s'.
  assert (H1 : recurse_dir scenario 3 options "root" s = Some (0, s'))
    by reflexivity.
  assert (H2 : walk_candidates scenario options 3 "root" = Some cs)
    by reflexivity.
  split; [split; assumption|].
  split.
  - exact (proj1 (walk_is_sequence_of_offers scenario options 3%nat "root" s)
             0 s' H1).
  - exact (proj2 (walk_is_sequence_of_offers scenario options 3%nat "root" s)
             cs H2).
Defined.

Lemma offer_all_first_max_from (cs : list candidate) (s : state) :
  latest s = mkLatest None 0 ->
  all_succeed (allocs s) -> cs <> [] ->
  exists pre c post,
    cs = (pre ++ c :: post)%list
    /\ latest (offer_all cs s) = mkLatest (Some (cand_path c)) (effectiveTime c)
    /\ (forall c', In c' cs -> effectiveTime c' <= effectiveTime c)
    /\ (forall c', In c' pre -> effectiveTime c' < effectiveTime c).
Proof.
  intros Hl Hal Hne.
  destruct (offer_all_first_max cs (allocs s) Hal Hne)
    as (pre & c & post & al' & Hsplit & E & _ & Hmax & Hfirst).
  exists pre, c, post. repeat split; try assumption.
  assert (A : same_acc s (initial_state (allocs s))) by (split; [exact Hl | reflexivity]).
  destruct (same_acc_offer_all cs _ _ A) as [-> _]. now rewrite E.
Qed.

(** X2. A walk that starts with the empty accumulator and whose
    allocations succeed ends with the first, in the order of the walk, of
    its candidates of greatest effective time; a walk without candidates
    leaves the accumulator empty. *)
Theorem walk_reports_first_newest_candidate :
  forall (os : Platform) (options : ProgramOptions) (fuel : nat)
         (basePath : string) (s : state) (r : Z) (s' : state),
    latest s = mkLatest None 0 ->
    all_succeed (allocs s) ->
    recurse_dir os fuel options basePath s = Some (r, s') ->
    exists cs,
      walk_candidates os options fuel basePath = Some cs
      /\ (cs = [] -> latest s' = mkLatest None 0)
      /\ (cs <> [] ->
          exists pre c post,
            cs = (pre ++ c :: post)%list
            /\ latest s' = mkLatest (Some (cand_path c)) (effectiveTime c)
            /\ (forall c', In c' cs -> effectiveTime c' <= effectiveTime c)
            /\ (forall c', In c' pre -> effectiveTime c' < effectiveTime c)).
Proof.
  intros os options fuel basePath s r s' Hl Hal H.
  destruct (walk_refines_some os options fuel basePath s r s' H)
    as (cs & E & A & _).
  exists cs. split; [exact E|]. split.
  - intros ->. rewrite A. exact Hl.
  - intros Hne. rewrite A. exact (offer_all_first_max_from cs s Hl Hal Hne).
Qed.

Lemma walk_reports_first_newest_candidate_witness :
  let options := mkOptions (Some "root") None None false in
  let s := initial_state [] in
  let s' := mkState (mkLatest (Some "root\b\c.txt") t_jun) []
              [Sys_opendir "root"; Sys_stat "root\a.txt"; Sys_stat "root\b";
               Sys_opendir "root\b"; Sys_stat "root\b\c.txt"] in
  (latest s = mkLatest None 0
   /\ all_succeed (allocs s)
   /\ recurse_dir scenario 3 options "root" s = Some (0, s'))
  /\ exists cs,
      walk_candidates scenario options 3 "root" = Some cs
      /\ (cs = [] -> latest s' = mkLatest None 0)
      /\ (cs <> [] ->
          exists pre c post,
            cs = (pre ++ c :: post)%list
            /\ latest s' = mkLatest (Some (cand_path c)) (effectiveTime c)
            /\ (forall c', In c' cs -> effectiveTime c' <= effectiveTime c)
            /\ (forall c', In c' pre -> effectiveTime c' < effectiveTime c)).
Proof.
  intros options s s'.
  assert (H1 : latest s = mkLatest None 0) by reflexivity.
  assert (H2 : all_succeed (allocs s)) by constructor.
  assert (H3 : recurse_dir scenario 3 options "root" s = Some (0, s'))
    by reflexivity.
  split; [repeat split; assumption|].
  exact (walk_reports_first_newest_candidate scenario options 3%nat "root" s 0 s'
           H1 H2 H3).
Defined.

(** ** Invariants of the walk *)

Section Walk_invariant.

Variable os : Platform.
Variable options : ProgramOptions.
Variable R : state -> state -> Prop.

Hypothesis R_refl : forall s, R s s.
Hypothesis R_trans : forall s t u, R s t -> R t u -> R s u.
Hypothesis R_event : forall e s, walk_event options e -> R s (emit e s).
Hypothesis R_visit :
  forall dir d_name statbuf s,
    is_dot d_name = false ->
    os_stat os (make_path dir d_name) = Some statbuf ->
    passes_filters os options d_name statbuf = true ->
    R s (update_latest_file (make_path dir d_name) (st_ctime statbuf)
           (st_mtime statbuf)
           (snd (date_filter os options statbuf
                   (emit (Sys_stat (make_path dir d_name)) s)))).

Lemma R_date_filter (statbuf : stat_t) (s : state) :
  R s (snd (date_filter os options statbuf s)).
Proof.
  unfold date_filter, is_after_date.
  destruct (beforeDate options) as [d|]; [|apply R_refl].
  destruct (os_cutoff_test os (st_mtime statbuf) d); cbn [snd]; [apply R_refl|].
  apply R_event. exact I.
Qed.

Lemma readdir_loop_invariant
      (recurse : string -> state -> option (Z * state)) (basePath : string) :
  (forall p s r s', recurse p s = Some (r, s') -> R s s') ->
  forall entries s s',
    readdir_loop os recurse options basePath entries s = Some s' -> R s s'.
Proof.
  intros Hrec. induction entries as [|d_name rest IH]; intros s s' H.
  - injection H as <-. apply R_refl.
  - cbn [readdir_loop] in H.
    destruct ((d_name =? ".")%string || (d_name =? "..")%string) eqn:Hdot;
      [now apply IH|].
    set (path := make_path basePath d_name) in *.
    assert (W0 : R s (emit (Sys_stat path) s)) by (apply R_event; exact I).
    destruct (os_stat os path) as [statbuf|] eqn:Hstat.
    2:{ apply IH in H. refine (R_trans _ _ _ (R_trans _ _ _ W0 _) H).
        apply R_event. exact I. }
    pose proof (R_date_filter statbuf (emit (Sys_stat path) s)) as W1.
    pose proof (R_visit basePath d_name statbuf s Hdot Hstat) as WV.
    fold path in WV.
    pose proof (passes_filters_eq os options d_name statbuf
                  (emit (Sys_stat path) s)) as Hpass.
    destruct (date_filter os options statbuf (emit (Sys_stat path) s))
      as [after s1]. cbn [fst snd] in *.
    pose proof (R_trans _ _ _ W0 W1) as W01.
    destruct after; [exact (R_trans _ _ _ W01 (IH _ _ H))|].
    destruct (exclude_filter options d_name);
      [exact (R_trans _ _ _ W01 (IH _ _ H))|].
    cbn in Hpass.
    pose proof (WV Hpass) as W02.
    destruct (st_isdir statbuf); [|exact (R_trans _ _ _ W02 (IH _ _ H))].
    match type of H with
    | match recurse path ?s3 with _ => _ end = _ =>
        assert (W3 : R s s3);
        [destruct (verbose options) eqn:V;
         [apply (R_trans _ _ _ W02); apply R_event; exact V | exact W02]
        | destruct (recurse path s3) as [[r s4]|] eqn:E; [|discriminate] ]
    end.
    apply Hrec in E.
    exact (R_trans _ _ _ (R_trans _ _ _ W3 E) (IH _ _ H)).
Qed.

Lemma recurse_dir_invariant (fuel : nat) :
  forall basePath s r s',
    recurse_dir os fuel options basePath s = Some (r, s') -> R s s'.
Proof.
  induction fuel as [|fuel IH]; intros basePath s r s' H;
    cbn [recurse_dir] in H; [discriminate|].
  assert (W0 : R s (emit (Sys_opendir basePath) s))
    by (apply R_event; exact I).
  destruct (os_opendir os basePath) as [entries|].
  - destruct (readdir_loop _ _ _ _ _ _) as [s1|] eqn:L; [|discriminate].
    injection H as _ <-.
    exact (R_trans _ _ _ W0 (readdir_loop_invariant _ _ IH _ _ _ L)).
  - injection H as _ <-. apply (R_trans _ _ _ W0). apply R_event. exact I.
Qed.

End Walk_invariant.

(** The same for a relation that every call of [update_latest_file] on a
    visited entry respects. *)
Lemma recurse_dir_invariant_update (os : Platform) (options : ProgramOptions)
      (R : state -> state -> Prop) :
  (forall s, R s s) ->
  (forall s t u, R s t -> R t u -> R s u) ->
  (forall e s, walk_event options e -> R s (emit e s)) ->
  (forall parent d_name statbuf s,
      is_dot d_name = false ->
      os_stat os (make_path parent d_name) = Some statbuf ->
      passes_filters os options d_name statbuf = true ->
      R s (update_latest_file (make_path parent d_name) (st_ctime statbuf)
             (st_mtime statbuf) s)) ->
  forall fuel basePath s r s',
    recurse_dir os fuel options basePath s = Some (r, s') -> R s s'.
Proof.
  intros R_refl R_trans R_event R_update.
  apply (recurse_dir_invariant os options R R_refl R_trans R_event).
  intros dir d_name statbuf s Hdot Hstat Hpass.
  apply (R_trans _ (emit (Sys_stat (make_path dir d_name)) s));
    [apply R_event; exact I|].
  apply (R_trans _ (snd (date_filter os options statbuf
                           (emit (Sys_stat (make_path dir d_name)) s))));
    [apply (R_date_filter os options R R_refl R_event)|].
  now apply R_update.
Qed.

Lemma update_cases (path : string) (ctime mtime : Z) (s : state) :
  update_latest_file path ctime mtime s = s
  \/ (exists al,
         update_latest_file path ctime mtime s
         = mkState (mkLatest (Some path) (Z.max ctime mtime)) al (trace s)
         /\ (latest_path (latest s) = None
             \/ latest_time (latest s) < Z.max ctime mtime))
  \/ (exists al,
         update_latest_file path ctime mtime s
         = mkState (latest s) al
             (trace s ++ [Stderr ("Error: Cannot allocate memory" ++ nl)])).
Proof.
  unfold update_latest_file. rewrite new_time_max.
  destruct (is_null (latest_path (latest s))
            || (Z.max ctime mtime >? latest_time (latest s))) eqn:G;
    [|now left].
  right. unfold malloc.
  assert (Hnew : latest_path (latest s) = None
                 \/ latest_time (latest s) < Z.max ctime mtime).
  { apply orb_true_iff in G. destruct G as [G | G].
    - left. destruct (latest_path (latest s)); [discriminate | reflexivity].
    - right. destruct (Z.gtb_spec (Z.max ctime mtime) (latest_time (latest s)));
        [assumption | discriminate]. }
  destruct (allocs s) as [|[|] rest] eqn:E; cbn.
  - left. exists []. unfold set_latest. rewrite E. split; [reflexivity | exact Hnew].
  - left. exists rest. split; [reflexivity | exact Hnew].
  - right. exists rest. reflexivity.
Qed.

(** X3. Once the accumulator holds a path, no part of the walk empties it
    or lowers its time. *)
Theorem walk_never_lowers_best :
  forall (os : Platform) (options : ProgramOptions) (fuel : nat)
         (basePath : string) (s : state) (r : Z) (s' : state) (p : string),
    recurse_dir os fuel options basePath s = Some (r, s') ->
    latest_path (latest s) = Some p ->
    exists p',
      latest_path (latest s') = Some p'
      /\ latest_time (latest s) <= latest_time (latest s').
Proof.
  intros os options fuel basePath s r s' p H.
  revert p.
  refine (recurse_dir_invariant_update os options
            (fun s s' => forall p, latest_path (latest s) = Some p ->
                                   exists p', latest_path (latest s') = Some p'
                                              /\ latest_time (latest s)
                                                 <= latest_time (latest s'))
            _ _ _ _ fuel basePath s r s' H).
  - intros s0 p Hp. exists p. split; [exact Hp | lia].
  - intros s0 t u A B p Hp. destruct (A p Hp) as (p1 & Hp1 & L1).
    destruct (B p1 Hp1) as (p2 & Hp2 & L2). exists p2. split; [exact Hp2 | lia].
  - intros e s0 _ p Hp. exists p. split; [exact Hp | cbn; lia].
  - intros parent d_name statbuf s0 _ _ _ p Hp.
    destruct (update_cases (make_path parent d_name) (st_ctime statbuf)
                (st_mtime statbuf) s0) as [-> | [(al & -> & Hnew) | (al & ->)]].
    + exists p. split; [exact Hp | lia].
    + eexists. split; [reflexivity|]. cbn.
      destruct Hnew as [Hn | Hlt]; [congruence | lia].
    + exists p. split; [exact Hp | cbn; lia].
Qed.

Lemma walk_never_lowers_best_witness :
  let options := mkOptions (Some "root") None None false in
  let s := mkState (mkLatest (Some "elsewhere") (t_jun + 1)) [] [] in
  let s' := mkState (mkLatest (Some "elsewhere") (t_jun + 1)) []
              [Sys_opendir "root"; Sys_stat "root\a.txt"; Sys_stat "root\b";
               Sys_opendir "root\b"; Sys_stat "root\b\c.txt"] in
  (recurse_dir scenario 3 options "root" s = Some (0, s')
   /\ latest_path (latest s) = Some "elsewhere")
  /\ exists p',
      latest_path (latest s') = Some p'
      /\ latest_time (latest s) <= latest_time (latest s').
Proof.
  intros options s s'.
  assert (H1 : recurse_dir scenario 3 options "root" s = Some (0, s'))
    by reflexivity.
  assert (H2 : latest_path (latest s) = Some "elsewhere") by reflexivity.
  split; [split; assumption|].
  exact (walk_never_lowers_best scenario options 3%nat "root" s 0 s' "elsewhere"
           H1 H2).
Defined.



Lemma stdout_of_quiet (evs : list event) :
  Forall quiet_event evs -> forall tr, stdout_of (tr ++ evs) = stdout_of tr.
Proof.
  intros F tr. induction tr as [|e tr IH]; cbn.
  - induction F as [|e evs He _ IHF]; [reflexivity|].
    destruct e; cbn in *; [contradiction | exact IHF ..].
  - destruct e; cbn; now rewrite ?IH.
Qed.

Lemma quiet_walk_trace (os : Platform) (options : ProgramOptions) (fuel : nat)
      (dir : string) (s : state) (r : Z) (s' : state) :
  verbose options = false ->
  recurse_dir os fuel options dir s = Some (r, s') ->
  exists evs, trace s' = (trace s ++ evs)%list /\ Forall quiet_event evs.
Proof.
  intros Hq H.
  refine (recurse_dir_invariant_update os options
            (fun s s' => exists evs, trace s' = (trace s ++ evs)%list
                                     /\ Forall quiet_event evs)
            _ _ _ _ fuel dir s r s' H).
  - intros s0. exists []. split; [now rewrite app_nil_r | constructor].
  - intros s0 t u (e1 & T1 & F1) (e2 & T2 & F2). exists (e1 ++ e2)%list.
    split; [now rewrite T2, T1, app_assoc | now apply Forall_app].
  - intros e s0 He. exists [e]. split; [reflexivity|].
    constructor; [|constructor].
    destruct e; cbn in *; [congruence | exact I ..].
  - intros parent d_name statbuf s0 _ _ _.
    destruct (update_cases (make_path parent d_name) (st_ctime statbuf)
                (st_mtime statbuf) s0) as [-> | [(al & -> & _) | (al & ->)]].
    + exists []. split; [now rewrite app_nil_r | constructor].
    + exists []. split; [cbn; now rewrite app_nil_r | constructor].
    + eexists. split; [reflexivity|]. constructor; [exact I | constructor].
Qed.

(** X5. Without the verbose flag the walk writes nothing on standard
    output: what it adds to the trace are its calls of [opendir] and
    [stat] and its lines on standard error. *)
Theorem quiet_walk_prints_nothing :
  forall (os : Platform) (options : ProgramOptions) (fuel : nat)
         (basePath : string) (s : state) (r : Z) (s' : state),
    verbose options = false ->
    recurse_dir os fuel options basePath s = Some (r, s') ->
    exists evs,
      trace s' = (trace s ++ evs)%list
      /\ Forall quiet_event evs
      /\ stdout_of (trace s') = stdout_of (trace s).
Proof.
  intros os options fuel basePath s r s' Hq H.
  destruct (quiet_walk_trace os options fuel basePath s r s' Hq H)
    as (evs & T & F).
  exists evs. repeat split; try assumption.
  rewrite T. now apply stdout_of_quiet.
Qed.

Lemma quiet_walk_prints_nothing_witness :
  let options := mkOptions (Some "root") None None false in
  let s := initial_state [] in
  let s' := mkState (mkLatest (Some "root\b\c.txt") t_jun) []
              [Sys_opendir "root"; Sys_stat "root\a.txt"; Sys_stat "root\b";
               Sys_opendir "root\b"; Sys_stat "root\b\c.txt"] in
  (verbose options = false
   /\ recurse_dir scenario 3 options "root" s = Some (0, s'))
  /\ exists evs,
      trace s' = (trace s ++ evs)%list
      /\ Forall quiet_event evs
      /\ stdout_of (trace s') = stdout_of (trace s).
Proof.
  intros options s s'.
  assert (H1 : verbose options = false) by reflexivity.
  assert (H2 : recurse_dir scenario 3 options "root" s = Some (0, s'))
    by reflexivity.
  split; [split; assumption|].
  exact (quiet_walk_prints_nothing scenario options 3%nat "root" s 0 s' H1 H2).
Defined.

(** ** What the result of a walk depends on *)

Lemma loop_candidates_ext (os : Platform) (o o' : ProgramOptions)
      (below below' : string -> option (list candidate)) (basePath : string) :
  (forall d sb, passes_filters os o d sb = passes_filters os o' d sb) ->
  (forall p, below p = below' p) ->
  forall entries,
    loop_candidates os o below basePath entries
    = loop_candidates os o' below' basePath entries.
Proof.
  intros Hpass Hbelow. induction entries as [|d_name rest IH]; [reflexivity|].
  cbn [loop_candidates]. rewrite IH, Hbelow.
  destruct (is_dot d_name); [reflexivity|].
  destruct (os_stat os (make_path basePath d_name)) as [statbuf|];
    [|reflexivity].
  now rewrite Hpass.
Qed.

Lemma walk_candidates_ext (os : Platform) (o o' : ProgramOptions) :
  (forall d sb, passes_filters os o d sb = passes_filters os o' d sb) ->
  forall fuel basePath,
    walk_candidates os o fuel basePath = walk_candidates os o' fuel basePath.
Proof.
  intros Hpass. induction fuel as [|fuel IH]; intros basePath; [reflexivity|].
  cbn [walk_candidates]. destruct (os_opendir os basePath); [|reflexivity].
  now apply loop_candidates_ext.
Qed.

Lemma walk_result_ext (os : Platform) (o o' : ProgramOptions) (fuel : nat)
      (basePath : string) (s : state) (r : Z) (s' : state) :
  (forall d sb, passes_filters os o d sb = passes_filters os o' d sb) ->
  recurse_dir os fuel o basePath s = Some (r, s') ->
  exists s'',
    recurse_dir os fuel o' basePath s = Some (r, s'')
    /\ latest s'' = latest s' /\ allocs s'' = allocs s'.
Proof.
  intros Hpass H.
  destruct (walk_refines_some os o fuel basePath s r s' H) as (cs & E & A & B).
  rewrite (walk_candidates_ext os o o' Hpass) in E.
  destruct (walk_refines_back os o' fuel basePath s cs E)
    as (r' & s'' & E' & A' & B').
  rewrite (recurse_dir_value _ _ _ _ _ _ _ H),
    <- (recurse_dir_value _ _ _ _ _ _ _ E').
  exists s''. repeat split; congruence.
Qed.

(** X6. The verbose flag and the stored base path do not change what a
    walk finds: two option records with the same cutoff and the same
    exclusion pattern give walks that return together, with the same value,
    the same accumulator and the same allocations used. *)
Theorem walk_result_ignores_verbose :
  forall (os : Platform) (o o' : ProgramOptions) (fuel : nat)
         (basePath : string) (s : state) (r : Z) (s' : state),
    beforeDate o = beforeDate o' ->
    excludePattern o = excludePattern o' ->
    recurse_dir os fuel o basePath s = Some (r, s') ->
    exists s'',
      recurse_dir os fuel o' basePath s = Some (r, s'')
      /\ latest s'' = latest s' /\ allocs s'' = allocs s'.
Proof.
  intros os o o' fuel basePath s r s' Hb He.
  apply walk_result_ext. intros d sb.
  unfold passes_filters, date_filter, exclude_filter. now rewrite Hb, He.
Qed.

Lemma walk_result_ignores_verbose_witness :
  let o := mkOptions (Some "root") None None false in
  let o' := mkOptions None None None true in
  let s := initial_state [] in
  let s' := mkState (mkLatest (Some "root\b\c.txt") t_jun) []
              [Sys_opendir "root"; Sys_stat "root\a.txt"; Sys_stat "root\b";
               Sys_opendir "root\b"; Sys_stat "root\b\c.txt"] in
  (beforeDate o = beforeDate o'
   /\ excludePattern o = excludePattern o'
   /\ recurse_dir scenario 3 o "root" s = Some (0, s'))
  /\ exists s'',
      recurse_dir scenario 3 o' "root" s = Some (0, s'')
      /\ latest s'' = latest s' /\ allocs s'' = allocs s'.
Proof.
  intros o o' s s'.
  assert (H1 : beforeDate o = beforeDate o') by reflexivity.
  assert (H2 : excludePattern o = excludePattern o') by reflexivity.
  assert (H3 : recurse_dir scenario 3 o "root" s = Some (0, s')) by reflexivity.
  split; [repeat split; assumption|].
  exact (walk_result_ignores_verbose scenario o o' 3%nat "root" s 0 s' H1 H2 H3).
Defined.

(** X7. A cutoff for which [is_after_date] returns 0 at every file time,
    by its error return or otherwise, removes no entry: the walk returns
    the value, the accumulator and the remaining allocations that it
    returns with no cutoff configured. *)
Theorem cutoff_test_answering_zero_filters_nothing :
  forall (os : Platform) (o : ProgramOptions) (cutoff_date : string)
         (fuel : nat) (dir : string) (s : state) (r : Z) (s' : state),
    beforeDate o = Some cutoff_date ->
    (forall t, os_cutoff_test os t cutoff_date <> Some true) ->
    recurse_dir os fuel o dir s = Some (r, s') ->
    exists s'',
      recurse_dir os fuel
        (mkOptions (basePath o) None (excludePattern o) (verbose o)) dir s
      = Some (r, s'')
      /\ latest s'' = latest s' /\ allocs s'' = allocs s'.
Proof.
  intros os o cutoff_date fuel dir s r s' Hb Hzero.
  apply walk_result_ext. intros d sb.
  unfold passes_filters, date_filter, is_after_date, exclude_filter.
  cbn [beforeDate excludePattern]. rewrite Hb.
  specialize (Hzero (st_mtime sb)).
  destruct (os_cutoff_test os (st_mtime sb) cutoff_date) as [[|]|];
    [congruence | reflexivity | reflexivity].
Qed.

Lemma cutoff_test_answering_zero_filters_nothing_witness :
  let o := mkOptions (Some "root") (Some "1 March") None false in
  let s := initial_state [] in
  let bad := Stderr ("Error: Invalid date format" ++ nl) in
  let s' := mkState (mkLatest (Some "root\b\c.txt") t_jun) []
              [Sys_opendir "root"; Sys_stat "root\a.txt"; bad;
               Sys_stat "root\b"; bad; Sys_opendir "root\b";
               Sys_stat "root\b\c.txt"; bad] in
  (beforeDate o = Some "1 March"
   /\ (forall t, os_cutoff_test scenario t "1 March" <> Some true)
   /\ recurse_dir scenario 3 o "root" s = Some (0, s'))
  /\ exists s'',
      recurse_dir scenario 3
        (mkOptions (basePath o) None (excludePattern o) (verbose o)) "root" s
      = Some (0, s'')
      /\ latest s'' = latest s' /\ allocs s'' = allocs s'.
Proof.
  intros o s bad s'.
  assert (H1 : beforeDate o = Some "1 March") by reflexivity.
  assert (H2 : forall t, os_cutoff_test scenario t "1 March" <> Some true)
    by (intros t; discriminate).
  assert (H3 : recurse_dir scenario 3 o "root" s = Some (0, s')) by reflexivity.
  split; [repeat split; assumption|].
  exact (cutoff_test_answering_zero_filters_nothing scenario o "1 March" 3%nat
           "root" s 0 s' H1 H2 H3).
Defined.

(** ** Entries that the loop passes over *)

Lemma filter_all_dots (entries : list string) :
  forallb is_dot entries = true ->
  filter (fun d => negb (is_dot d)) entries = [].
Proof.
  induction entries as [|d_name rest IH]; [reflexivity|].
  cbn. intros H. apply andb_true_iff in H. destruct H as [-> Hrest].
  cbn. exact (IH Hrest).
Qed.

Lemma readdir_loop_without_dots (os : Platform)
      (recurse : string -> state -> option (Z * state))
      (options : ProgramOptions) (dir : string) (entries : list string) :
  forall s,
    readdir_loop os recurse options dir entries s
    = readdir_loop os recurse options dir
        (filter (fun d => negb (is_dot d)) entries) s.
Proof.
  induction entries as [|d_name rest IH]; intros s; [reflexivity|].
  cbn [filter]. destruct (is_dot d_name) eqn:Hdot; cbn [negb].
  - cbn [readdir_loop]. unfold is_dot in Hdot. rewrite Hdot. apply IH.
  - cbn [readdir_loop]. unfold is_dot in Hdot. rewrite Hdot.
    destruct (os_stat os (make_path dir d_name)) as [statbuf|]; [|apply IH].
    destruct (date_filter os options statbuf _) as [after s1].
    destruct after; [apply IH|].
    destruct (exclude_filter options d_name); [apply IH|].
    destruct (st_isdir statbuf); [|apply IH].
    destruct (recurse _ _) as [[r s4]|]; [apply IH | reflexivity].
Qed.

(** X9. The entries [.] and [..] play no part: the loop over a directory
    listing does what it does over the listing without them; over a
    listing that holds nothing else it leaves the state as it is. *)
Theorem dot_entries_are_skipped :
  forall (os : Platform) (recurse : string -> state -> option (Z * state))
         (options : ProgramOptions) (dir : string) (entries : list string)
         (s : state),
    readdir_loop os recurse options dir entries s
    = readdir_loop os recurse options dir
        (filter (fun d => negb (is_dot d)) entries) s
    /\ (forallb is_dot entries = true ->
        readdir_loop os recurse options dir entries s = Some s).
Proof.
  intros os recurse options dir entries s.
  split; [apply readdir_loop_without_dots|].
  intros Hall. rewrite readdir_loop_without_dots, (filter_all_dots _ Hall).
  reflexivity.
Qed.

Lemma dot_entries_are_skipped_witness :
  let options := mkOptions (Some "root") None None false in
  forallb is_dot ["."; ".."] = true
  /\ readdir_loop scenario (recurse_dir scenario 1 options) options "root\b"
       ["."; ".."] (initial_state [])
     = Some (initial_state []).
Proof.
  intros options.
  assert (H : forallb is_dot ["."; ".."] = true) by reflexivity.
  split; [exact H|].
  exact (proj2 (dot_entries_are_skipped scenario (recurse_dir scenario 1 options)
                  options "root\b" ["."; ".."] (initial_state [])) H).
Defined.

Lemma format_cannot_stat (p : string) :
  format ("Error: Cannot get the file information of %s" ++ nl) [p]
  = "Error: Cannot get the file information of " ++ p ++ nl.
Proof. reflexivity. Qed.

(** X10. An entry whose [stat] fails costs one line on standard error
    naming its path and nothing else; a directory in which every [stat]
    fails is read to its end with the accumulator and the allocations
    untouched. *)
Theorem unreadable_entries_are_skipped :
  forall (os : Platform) (recurse : string -> state -> option (Z * state))
         (options : ProgramOptions) (dir : string),
    (forall (d_name : string) (rest : list string) (s : state),
        is_dot d_name = false ->
        os_stat os (make_path dir d_name) = None ->
        readdir_loop os recurse options dir (d_name :: rest) s
        = readdir_loop os recurse options dir rest
            (mkState (latest s) (allocs s)
               (trace s
                  ++ [Sys_stat (make_path dir d_name);
                      Stderr ("Error: Cannot get the file information of "
                                ++ make_path dir d_name ++ nl)])))
    /\ (forall (entries : list string) (s : state),
           (forall d_name, In d_name entries ->
                           os_stat os (make_path dir d_name) = None) ->
           exists s',
             readdir_loop os recurse options dir entries s = Some s'
             /\ latest s' = latest s /\ allocs s' = allocs s).
Proof.
  intros os recurse options dir.
  assert (Step : forall d_name rest s,
             is_dot d_name = false ->
             os_stat os (make_path dir d_name) = None ->
             readdir_loop os recurse options dir (d_name :: rest) s
             = readdir_loop os recurse options dir rest
                 (mkState (latest s) (allocs s)
                    (trace s
                       ++ [Sys_stat (make_path dir d_name);
                           Stderr ("Error: Cannot get the file information of "
                                     ++ make_path dir d_name ++ nl)]))).
  { intros d_name rest s Hdot Hstat. cbn [readdir_loop].
    unfold is_dot in Hdot. rewrite Hdot, Hstat.
    unfold fprintf_stderr, emit. cbn [latest allocs trace].
    rewrite format_cannot_stat, <- app_assoc. reflexivity. }
  split; [exact Step|].
  induction entries as [|d_name rest IH]; intros s Hall.
  - exists s. repeat split.
  - assert (Hrest : forall d, In d rest -> os_stat os (make_path dir d) = None)
      by (intros d Hin; apply Hall; now right).
    destruct (is_dot d_name) eqn:Hdot.
    + cbn [readdir_loop]. unfold is_dot in Hdot. rewrite Hdot.
      exact (IH s Hrest).
    + rewrite (Step d_name rest s Hdot (Hall d_name (or_introl eq_refl))).
      destruct (IH (mkState (latest s) (allocs s)
                      (trace s
                         ++ [Sys_stat (make_path dir d_name);
                             Stderr ("Error: Cannot get the file information of "
                                       ++ make_path dir d_name ++ nl)])) Hrest)
        as (s' & E & L & A).
      exists s'. repeat split; assumption.
Qed.

Lemma unreadable_entries_are_skipped_witness :
  let options := mkOptions (Some "root") None None false in
  let recurse := recurse_dir scenario 1 options in
  let s := initial_state [] in
  (is_dot "gone" = false
   /\ os_stat scenario (make_path "root" "gone") = None
   /\ (forall d_name, In d_name ["gone"; "."] ->
                      os_stat scenario (make_path "root" d_name) = None))
  /\ readdir_loop scenario recurse options "root" ["gone"; "a.txt"] s
     = readdir_loop scenario recurse options "root" ["a.txt"]
         (mkState (latest s) (allocs s)
            (trace s
               ++ [Sys_stat (make_path "root" "gone");
                   Stderr ("Error: Cannot get the file information of "
                             ++ make_path "root" "gone" ++ nl)]))
  /\ exists s',
      readdir_loop scenario recurse options "root" ["gone"; "."] s = Some s'
      /\ latest s' = latest s /\ allocs s' = allocs s.
Proof.
  intros options recurse s.
  assert (H1 : is_dot "gone" = false) by reflexivity.
  assert (H2 : os_stat scenario (make_path "root" "gone") = None) by reflexivity.
  assert (H3 : forall d_name, In d_name ["gone"; "."] ->
                              os_stat scenario (make_path "root" d_name) = None)
    by (intros d [<- | [<- | []]]; reflexivity).
  split; [repeat split; assumption|].
  split.
  - exact (proj1 (unreadable_entries_are_skipped scenario recurse options "root")
             "gone" ["a.txt"] s H1 H2).
  - exact (proj2 (unreadable_entries_are_skipped scenario recurse options "root")
             ["gone"; "."] s H3).
Defined.

(** ** Termination *)

Lemma readdir_loop_completes (os : Platform) (options : ProgramOptions)
      (recurse : string -> state -> option (Z * state)) (dir : string) :
  forall entries,
    (forall d sb s,
        In d entries -> is_dot d = false ->
        os_stat os (make_path dir d) = Some sb -> st_isdir sb = true ->
        exists r s', recurse (make_path dir d) s = Some (r, s')) ->
    forall s, exists s', readdir_loop os recurse options dir entries s = Some s'.
Proof.
  induction entries as [|d_name rest IH]; intros Hrec s.
  - exists s. reflexivity.
  - assert (IH' : forall s0, exists s',
                 readdir_loop os recurse options dir rest s0 = Some s').
    { apply IH. intros d sb s0 Hin. apply Hrec. now right. }
    cbn [readdir_loop].
    destruct ((d_name =? ".")%string || (d_name =? "..")%string) eqn:Hdot;
      [apply IH'|].
    destruct (os_stat os (make_path dir d_name)) as [statbuf|] eqn:Hstat;
      [|apply IH'].
    destruct (date_filter os options statbuf _) as [after s1].
    destruct after; [apply IH'|].
    destruct (exclude_filter options d_name); [apply IH'|].
    destruct (st_isdir statbuf) eqn:Hdir; [|apply IH'].
    match goal with
    | |- context [recurse _ ?s3] =>
        destruct (Hrec d_name statbuf s3 (or_introl eq_refl) Hdot Hstat Hdir)
          as (r & s4 & ->)
    end.
    apply IH'.
Qed.

Lemma make_path_saturated (dir d_name : string) :
  String.length dir = 1023%nat -> make_path dir d_name = dir.
Proof.
  intros H. rewrite make_path_truncate.
  rewrite truncate_app by lia. apply truncate_short. lia.
Qed.

(** X8. The walk returns when the paths it builds bottom out: if, following
    the joined paths cut to 1023 bytes, no chain of directory paths below
    [dir] is longer than [n], then [recurse_dir] returns within [n + 1]
    nested calls, whatever the options and the state. A finite tree need
    not be such: when the path of a directory fills the 1023 bytes, the
    path built for each of its entries is the directory's own, and if the
    first entry besides [.] and [..] passes the filters the walk returns
    for no bound on the recursion. *)
Theorem walk_completes_when_built_paths_bottom_out :
  (forall (os : Platform) (n : nat) (dir : string),
      depth_within os n dir = true ->
      forall (options : ProgramOptions) (s : state),
      exists r s', recurse_dir os (S n) options dir s = Some (r, s'))
  /\ (forall (os : Platform) (options : ProgramOptions) (dir d_name : string)
             (entries rest : list string) (statbuf : stat_t),
         String.length dir = 1023%nat ->
         os_opendir os dir = Some entries ->
         filter (fun d => negb (is_dot d)) entries = d_name :: rest ->
         os_stat os dir = Some statbuf ->
         st_isdir statbuf = true ->
         passes_filters os options d_name statbuf = true ->
         forall (fuel : nat) (s : state),
           recurse_dir os fuel options dir s = None).
Proof.
  split.
  - intros os. induction n as [|n IH]; intros dir Hd options s;
      rewrite recurse_dir_succ; cbn [depth_within] in Hd;
      (destruct (os_opendir os dir) as [entries|]; [|eauto]);
      match goal with
      | |- context [readdir_loop os ?rec options dir entries ?s0] =>
          destruct (readdir_loop_completes os options rec dir entries)
            with (s := s0) as [s' ->]; [|eauto]
      end;
      intros d sb s0 Hin Hdot Hstat Hdir;
      rewrite forallb_forall in Hd; specialize (Hd d Hin);
      rewrite Hdot, Hstat, Hdir in Hd.
    + discriminate.
    + apply IH. exact Hd.
  - intros os options dir d_name entries rest statbuf Hlen Hopen Hfirst Hstat
           Hdir Hpass.
    assert (Hreal : real_entry d_name).
    { assert (Hin : In d_name (filter (fun d => negb (is_dot d)) entries))
        by (rewrite Hfirst; now left).
      apply filter_In in Hin. destruct Hin as [_ Hin].
      apply negb_true_iff in Hin. exact Hin. }
    assert (Hstat' : os_stat os (make_path dir d_name) = Some statbuf)
      by (rewrite (make_path_saturated _ _ Hlen); exact Hstat).
    assert (Hf : forall s0,
               fst (date_filter os options statbuf s0)
               || exclude_filter options d_name = false).
    { intros s0. pose proof (passes_filters_eq os options d_name statbuf s0) as E.
      rewrite Hpass in E. symmetry in E. now apply negb_true_iff in E. }
    induction fuel as [|fuel IH]; intros s; [reflexivity|].
    rewrite recurse_dir_succ, Hopen, readdir_loop_without_dots, Hfirst.
    rewrite (readdir_loop_visit os _ options dir d_name rest statbuf _ Hreal
               Hstat').
    cbv zeta. rewrite Hf, Hdir.
    rewrite (make_path_saturated _ _ Hlen), IH. reflexivity.
Qed.

Lemma walk_completes_when_built_paths_bottom_out_witness :
  let options := mkOptions (Some full_path) None None false in
  let dir := mkStat true t_jan t_jan in
  (depth_within scenario 1 "root" = true
   /\ String.length full_path = 1023%nat
   /\ os_opendir saturated_tree full_path = Some ["."; ".."; "x"]
   /\ filter (fun d => negb (is_dot d)) ["."; ".."; "x"] = ["x"]
   /\ os_stat saturated_tree full_path = Some dir
   /\ st_isdir dir = true
   /\ passes_filters saturated_tree options "x" dir = true)
  /\ (exists r s',
         recurse_dir scenario 2 (mkOptions (Some "root") None None true) "root"
           (initial_state [])
         = Some (r, s'))
  /\ recurse_dir saturated_tree 50 options full_path (initial_state []) = None.
Proof.
  intros options dir.
  assert (H : depth_within scenario 1 "root" = true) by reflexivity.
  assert (S1 : String.length full_path = 1023%nat) by (vm_compute; reflexivity).
  assert (S2 : os_opendir saturated_tree full_path = Some ["."; ".."; "x"])
    by (vm_compute; reflexivity).
  assert (S3 : filter (fun d => negb (is_dot d)) ["."; ".."; "x"] = ["x"])
    by reflexivity.
  assert (S4 : os_stat saturated_tree full_path = Some dir)
    by (vm_compute; reflexivity).
  assert (S5 : st_isdir dir = true) by reflexivity.
  assert (S6 : passes_filters saturated_tree options "x" dir = true)
    by reflexivity.
  split; [repeat split; assumption|].
  split.
  - exact (proj1 walk_completes_when_built_paths_bottom_out scenario 1%nat "root"
             H (mkOptions (Some "root") None None true) (initial_state [])).
  - exact (proj2 walk_completes_when_built_paths_bottom_out saturated_tree options
             full_path "x" ["."; ".."; "x"] [] dir S1 S2 S3 S4 S5 S6 50%nat
             (initial_state [])).
Defined.

(** ** The command line *)

Lemma stored_not_help (o : ascii * option string) :
  stored_option o = true -> help_option o = false.
Proof.
  destruct o as [c a]. unfold stored_option, help_option. cbn [fst].
  intros H.
  repeat (apply orb_true_iff in H; destruct H as [H | H]);
    apply Ascii.eqb_eq in H; subst c; reflexivity.
Qed.

Lemma parse_loop_stored (programName : string) (o : ascii * option string)
      (rest : list (ascii * option string)) (options : ProgramOptions)
      (s : state) :
  stored_option o = true ->
  parse_loop programName (o :: rest) options s
  = parse_loop programName rest (store_option o options) s.
Proof.
  intros H. pose proof (stored_not_help o H) as Hh.
  destruct o as [c a]. unfold stored_option, help_option, store_option in *.
  cbn [fst snd] in *. cbn [parse_loop]. rewrite Hh.
  destruct (c =? "p")%char; [reflexivity|].
  destruct (c =? "b")%char; [reflexivity|].
  destruct (c =? "e")%char; [reflexivity|].
  destruct (c =? "v")%char; [reflexivity | discriminate].
Qed.

Lemma parse_loop_stored_prefix (programName : string)
      (pre rest : list (ascii * option string)) :
  forall (options : ProgramOptions) (s : state),
    forallb stored_option pre = true ->
    parse_loop programName (pre ++ rest)%list options s
    = parse_loop programName rest (store_all pre options) s.
Proof.
  induction pre as [|o pre IH]; intros options s H; [reflexivity|].
  cbn in H. apply andb_true_iff in H. destruct H as [Ho Hpre].
  cbn [app]. rewrite (parse_loop_stored _ _ _ _ _ Ho). now rewrite IH.
Qed.

Lemma store_all_keeps_path (opts : list (ascii * option string)) :
  forall options,
    forallb not_path_option opts = true ->
    basePath (store_all opts options) = basePath options.
Proof.
  induction opts as [|o opts IH]; intros options H; [reflexivity|].
  cbn in H. apply andb_true_iff in H. destruct H as [Ho Hrest].
  cbn [store_all fold_left]. fold (store_all opts (store_option o options)).
  rewrite (IH _ Hrest). unfold store_option, not_path_option in *.
  destruct (fst o =? "p")%char; [discriminate|].
  destruct (fst o =? "b")%char; [reflexivity|].
  destruct (fst o =? "e")%char; reflexivity.
Qed.

Lemma parse_loop_facts (programName : string)
      (opts : list (ascii * option string)) :
  forall (options : ProgramOptions) (s : state) (result : Z)
         (options' : ProgramOptions) (s' : state),
    parse_loop programName opts options s = (result, options', s') ->
    (result = 0 \/ result = 1 \/ result = 2)
    /\ (result = 2 -> s' = s /\ exists p, basePath options' = Some p)
    /\ latest s' = latest s /\ allocs s' = allocs s.
Proof.
  induction opts as [|[c a] opts IH]; intros options s result options' s' H;
    cbn [parse_loop] in H.
  - destruct (basePath options) as [p|] eqn:Hp; cbn [is_null] in H;
      injection H as <- <- <-.
    + repeat split; eauto.
    + repeat split; auto; discriminate.
  - destruct ((c =? "h")%char || (c =? "?")%char).
    { injection H as <- <- <-. repeat split; auto; discriminate. }
    destruct (c =? "p")%char; [exact (IH _ _ _ _ _ H)|].
    destruct (c =? "b")%char; [exact (IH _ _ _ _ _ H)|].
    destruct (c =? "e")%char; [exact (IH _ _ _ _ _ H)|].
    destruct (c =? "v")%char; [exact (IH _ _ _ _ _ H)|].
    injection H as <- <- <-. repeat split; auto; discriminate.
Qed.

(** X11. [parse_options] returns 0, 1 or 2 and never touches the
    accumulator; when it returns 2, the value on which [main] walks, it has
    printed nothing and the base path is set. *)
Theorem parse_options_result :
  forall (argv : list string) (s : state) (result : Z)
         (options : ProgramOptions) (s' : state),
    parse_options argv s = (result, options, s') ->
    (result = 0 \/ result = 1 \/ result = 2)
    /\ (result = 2 -> s' = s /\ exists p, basePath options = Some p)
    /\ latest s' = latest s /\ allocs s' = allocs s.
Proof.
  intros argv s result options s'. unfold parse_options. apply parse_loop_facts.
Qed.

Lemma parse_options_result_witness :
  let argv := ["prog"; "-v"; "-e"; "tmp"; "-p"; "root"] in
  let options := mkOptions (Some "root") None (Some "tmp") true in
  parse_options argv (initial_state []) = (2, options, initial_state [])
  /\ (2 = 2 -> initial_state [] = initial_state []
               /\ exists p, basePath options = Some p).
Proof.
  intros argv options.
  assert (H : parse_options argv (initial_state [])
              = (2, options, initial_state [])) by reflexivity.
  split; [exact H|].
  exact (proj1 (proj2 (parse_options_result argv (initial_state []) 2 options
                         (initial_state []) H))).
Defined.

(** X12. The first [h] or [?] that [getopt] returns ends the parse: the
    usage text is printed and 0 returned, whatever options were stored
    before it and whatever follows it. *)
Theorem help_option_ends_parse :
  forall (programName : string) (pre post : list (ascii * option string))
         (o : ascii * option string) (options : ProgramOptions) (s : state),
    forallb stored_option pre = true ->
    help_option o = true ->
    parse_loop programName (pre ++ o :: post)%list options s
    = (0, store_all pre options, print_usage programName s).
Proof.
  intros programName pre post [c a] options s Hpre Hh.
  rewrite (parse_loop_stored_prefix _ _ _ _ _ Hpre).
  cbn [parse_loop]. unfold help_option in Hh. cbn [fst] in Hh.
  now rewrite Hh.
Qed.

Lemma help_option_ends_parse_witness :
  let pre := [("p"%char, Some "root"); ("v"%char, None)] in
  let o := ("?"%char, @None string) in
  let post := [("b"%char, Some "2024-01-01")] in
  let options := mkOptions None None None false in
  (forallb stored_option pre = true /\ help_option o = true)
  /\ parse_loop "prog" (pre ++ o :: post)%list options (initial_state [])
     = (0, store_all pre options, print_usage "prog" (initial_state [])).
Proof.
  intros pre o post options.
  assert (H1 : forallb stored_option pre = true) by reflexivity.
  assert (H2 : help_option o = true) by reflexivity.
  split; [split; assumption|].
  exact (help_option_ends_parse "prog" pre post o options (initial_state [])
           H1 H2).
Defined.

(** X13. Without a [p] among the options, and with no [h] or [?], the
    parse ends with [Error: Path is required.] on standard error, the usage
    text, and the value 1. *)
Theorem missing_path_is_an_error :
  forall (programName : string) (opts : list (ascii * option string))
         (options : ProgramOptions) (s : state),
    forallb stored_option opts = true ->
    forallb not_path_option opts = true ->
    basePath options = None ->
    parse_loop programName opts options s
    = (1, store_all opts options,
        print_usage programName
          (mkState (latest s) (allocs s)
             (trace s ++ [Stderr ("Error: Path is required." ++ nl)]))).
Proof.
  intros programName opts options s Hst Hnp Hnone.
  rewrite <- (app_nil_r opts) at 1.
  rewrite (parse_loop_stored_prefix _ _ _ _ _ Hst). cbn [parse_loop].
  rewrite (store_all_keeps_path _ _ Hnp), Hnone. reflexivity.
Qed.

Lemma missing_path_is_an_error_witness :
  let opts := [("v"%char, @None string); ("e"%char, Some "tmp")] in
  let options := mkOptions None None None false in
  let s := initial_state [] in
  (forallb stored_option opts = true
   /\ forallb not_path_option opts = true
   /\ basePath options = None)
  /\ parse_loop "prog" opts options s
     = (1, store_all opts options,
         print_usage "prog"
           (mkState (latest s) (allocs s)
              (trace s ++ [Stderr ("Error: Path is required." ++ nl)]))).
Proof.
  intros opts options s.
  assert (H1 : forallb stored_option opts = true) by reflexivity.
  assert (H2 : forallb not_path_option opts = true) by reflexivity.
  assert (H3 : basePath options = None) by reflexivity.
  split; [repeat split; assumption|].
  exact (missing_path_is_an_error "prog" opts options s H1 H2 H3).
Defined.

(** X14. When [p] is given more than once, the last one decides: a parse
    of stored options returns 2 with the argument of the last [p] as the
    base path, and prints nothing. *)
Theorem last_path_option_wins :
  forall (programName : string) (pre post : list (ascii * option string))
         (path : string) (options : ProgramOptions) (s : state),
    forallb stored_option pre = true ->
    forallb stored_option post = true ->
    forallb not_path_option post = true ->
    exists options',
      parse_loop programName (pre ++ ("p"%char, Some path) :: post)%list
        options s
      = (2, options', s)
      /\ basePath options' = Some path.
Proof.
  intros programName pre post path options s Hpre Hpost Hnp.
  exists (store_all post (store_option ("p"%char, Some path)
                            (store_all pre options))).
  assert (Hb : basePath (store_all post
                           (store_option ("p"%char, Some path)
                              (store_all pre options))) = Some path)
    by (rewrite (store_all_keeps_path _ _ Hnp); reflexivity).
  split; [|exact Hb].
  rewrite (parse_loop_stored_prefix _ _ _ _ _ Hpre).
  rewrite (parse_loop_stored _ ("p"%char, Some path) _ _ _ eq_refl).
  rewrite <- (app_nil_r post) at 1.
  rewrite (parse_loop_stored_prefix _ _ _ _ _ Hpost). cbn [parse_loop].
  rewrite Hb. reflexivity.
Qed.

Lemma last_path_option_wins_witness :
  let pre := [("p"%char, Some "first"); ("b"%char, Some "2024-01-01")] in
  let post := [("v"%char, @None string)] in
  let options := mkOptions None None None false in
  (forallb stored_option pre = true
   /\ forallb stored_option post = true
   /\ forallb not_path_option post = true)
  /\ exists options',
      parse_loop "prog" (pre ++ ("p"%char, Some "second") :: post)%list options
        (initial_state [])
      = (2, options', initial_state [])
      /\ basePath options' = Some "second".
Proof.
  intros pre post options.
  assert (H1 : forallb stored_option pre = true) by reflexivity.
  assert (H2 : forallb stored_option post = true) by reflexivity.
  assert (H3 : forallb not_path_option post = true) by reflexivity.
  split; [repeat split; assumption|].
  exact (last_path_option_wins "prog" pre post "second" options
           (initial_state []) H1 H2 H3).
Defined.

(** ** Whole runs *)

Lemma string_app_assoc (a b c : string) : (a ++ b) ++ c = a ++ b ++ c.
Proof. induction a as [|x a IH]; cbn; [reflexivity | now rewrite IH]. Qed.


(** X15. A base path that cannot be opened is no error for [main]: the run
    prints [Error: Cannot open] with the path on standard error and
    [No file found] on standard output, and its exit status is 0. *)
Theorem unopenable_root_reports_no_file :
  forall (os : Platform) (fuel : nat) (argv : list string) (al : list bool)
         (options : ProgramOptions) (s1 : state) (root : string),
    parse_options argv (initial_state al) = (2, options, s1) ->
    basePath options = Some root ->
    os_opendir os root = None ->
    main os (S fuel) argv al
    = Some (0, mkState (mkLatest None 0) al
                 [Sys_opendir root;
                  Stderr ("Error: Cannot open " ++ root ++ nl);
                  Stdout ("No file found" ++ nl)]).
Proof.
  intros os fuel argv al options s1 root Hparse Hroot Hopen.
  pose proof Hparse as Hp. unfold parse_options in Hp.
  destruct (parse_loop_facts _ _ _ _ _ _ _ Hp) as (_ & H2 & _).
  destruct (H2 eq_refl) as [-> _].
  unfold main. fold (initial_state al). rewrite Hparse.
  cbn [Z.eqb Pos.eqb negb]. rewrite Hroot, recurse_dir_succ, Hopen.
  reflexivity.
Qed.

Lemma unopenable_root_reports_no_file_witness :
  let argv := ["prog"; "-p"; "nowhere"] in
  let options := mkOptions (Some "nowhere") None None false in
  (parse_options argv (initial_state []) = (2, options, initial_state [])
   /\ basePath options = Some "nowhere"
   /\ os_opendir scenario "nowhere" = None)
  /\ main scenario 1 argv []
     = Some (0, mkState (mkLatest None 0) []
                  [Sys_opendir "nowhere";
                   Stderr ("Error: Cannot open " ++ "nowhere" ++ nl);
                   Stdout ("No file found" ++ nl)]).
Proof.
  intros argv options.
  assert (H1 : parse_options argv (initial_state [])
               = (2, options, initial_state [])) by reflexivity.
  assert (H2 : basePath options = Some "nowhere") by reflexivity.
  assert (H3 : os_opendir scenario "nowhere" = None) by reflexivity.
  split; [repeat split; assumption|].
  exact (unopenable_root_reports_no_file scenario 0%nat argv [] options
           (initial_state []) "nowhere" H1 H2 H3).
Defined.



(** ** More on the accumulator and the filters *)

(** X17. The time the accumulator ends with does not depend on the order
    of the offers: two sequences of offers that are permutations of each
    other, each from the empty state with its allocations succeeding, end
    with the same time. *)
Theorem best_time_ignores_order :
  forall (cs cs' : list candidate) (al al' : list bool),
    Permutation cs cs' ->
    all_succeed al -> all_succeed al' ->
    latest_time (latest (offer_all cs (initial_state al)))
    = latest_time (latest (offer_all cs' (initial_state al'))).
Proof.
  intros cs cs' al al' P Hal Hal'.
  destruct cs as [|x cs0].
  - apply Permutation_nil in P. subst cs'. reflexivity.
  - assert (Hne : x :: cs0 <> []) by discriminate.
    assert (Hne' : cs' <> [])
      by (intros ->; apply Permutation_sym, Permutation_nil in P; discriminate).
    destruct (offer_all_first_max _ al Hal Hne)
      as (pre & c & post & a1 & Hs & E & _ & Hmax & _).
    destruct (offer_all_first_max _ al' Hal' Hne')
      as (pre' & c' & post' & a2 & Hs' & E' & _ & Hmax' & _).
    rewrite E, E'. cbn [latest latest_time].
    assert (Hc : In c (x :: cs0))
      by (rewrite Hs; apply in_or_app; right; now left).
    assert (Hc' : In c' cs')
      by (rewrite Hs'; apply in_or_app; right; now left).
    pose proof (Hmax' c (Permutation_in _ P Hc)).
    pose proof (Hmax c' (Permutation_in _ (Permutation_sym P) Hc')).
    lia.
Qed.

Lemma best_time_ignores_order_witness :
  let cs := [mkCandidate "a" 1 2; mkCandidate "b" 5 3] in
  let cs' := [mkCandidate "b" 5 3; mkCandidate "a" 1 2] in
  (Permutation cs cs' /\ all_succeed [] /\ all_succeed [true])
  /\ latest_time (latest (offer_all cs (initial_state [])))
     = latest_time (latest (offer_all cs' (initial_state [true]))).
Proof.
  intros cs cs'.
  assert (H1 : Permutation cs cs') by apply perm_swap.
  assert (H2 : all_succeed []) by constructor.
  assert (H3 : all_succeed [true]) by (repeat constructor).
  split; [repeat split; assumption|].
  exact (best_time_ignores_order cs cs' [] [true] H1 H2 H3).
Defined.

(** X18. Offering the same candidate a second time changes nothing, when
    the allocation of the first offer succeeds. *)
Theorem second_offer_changes_nothing :
  forall (s : state) (c : candidate),
    all_succeed (allocs s) ->
    offer (offer s c) c = offer s c.
Proof.
  intros s c Hal. unfold offer.
  destruct (latest_path (latest s)) as [p|] eqn:Hp.
  - destruct (Z_lt_le_dec (latest_time (latest s))
                (Z.max (cand_ctime c) (cand_mtime c))) as [Hlt | Hle].
    + destruct (update_adopt s (cand_path c) (cand_ctime c) (cand_mtime c)
                  (or_intror Hlt) Hal) as (al' & -> & _).
      apply (update_keep _ (cand_path c)); [reflexivity | cbn; lia].
    + rewrite (update_keep s p _ _ _ Hp Hle).
      exact (update_keep s p _ _ _ Hp Hle).
  - destruct (update_adopt s (cand_path c) (cand_ctime c) (cand_mtime c)
                (or_introl Hp) Hal) as (al' & -> & _).
    apply (update_keep _ (cand_path c)); [reflexivity | cbn; lia].
Qed.

Lemma second_offer_changes_nothing_witness :
  let s := initial_state [true] in
  let c := mkCandidate "root\a.txt" t_jan t_jun in
  all_succeed (allocs s) /\ offer (offer s c) c = offer s c.
Proof.
  intros s c.
  assert (H : all_succeed (allocs s)) by (repeat constructor).
  split; [exact H|].
  exact (second_offer_changes_nothing s c H).
Defined.

Lemma length_app (a b : string) :
  String.length (a ++ b) = (String.length a + String.length b)%nat.
Proof. induction a as [|x a IH]; cbn; [reflexivity | now rewrite IH]. Qed.

(** X19. [is_excluded] orders strings by containment: every name is
    excluded by itself as pattern; a pattern longer than the name excludes
    nothing; and a name excluded by a pattern is excluded by every pattern
    which that pattern would exclude as a name. *)
Theorem is_excluded_is_containment :
  (forall name, is_excluded name name = true)
  /\ (forall name pattern,
         (String.length name < String.length pattern)%nat ->
         is_excluded name pattern = false)
  /\ (forall name pattern part,
         is_excluded name pattern = true ->
         is_excluded pattern part = true ->
         is_excluded name part = true).
Proof.
  split; [|split].
  - intros name. apply is_excluded_iff. exists EmptyString, EmptyString.
    cbn. now rewrite append_empty_r.
  - intros name pattern Hlen.
    destruct (is_excluded name pattern) eqn:E; [|reflexivity].
    apply is_excluded_iff in E. destruct E as (pre & post & ->).
    rewrite !length_app in Hlen. lia.
  - intros name pattern part H1 H2.
    apply is_excluded_iff in H1. destruct H1 as (a & b & ->).
    apply is_excluded_iff in H2. destruct H2 as (c & d & ->).
    apply is_excluded_iff. exists (a ++ c), (d ++ b).
    now rewrite !string_app_assoc.
Qed.

Lemma is_excluded_is_containment_witness :
  ((String.length "a.txt" < String.length "backup.txt")%nat
   /\ is_excluded "backup.txt" ".txt" = true
   /\ is_excluded ".txt" "tx" = true)
  /\ is_excluded "a.txt" "backup.txt" = false
  /\ is_excluded "backup.txt" "tx" = true.
Proof.
  assert (H1 : (String.length "a.txt" < String.length "backup.txt")%nat)
    by (cbn; lia).
  assert (H2 : is_excluded "backup.txt" ".txt" = true) by reflexivity.
  assert (H3 : is_excluded ".txt" "tx" = true) by reflexivity.
  split; [repeat split; assumption|].
  split.
  - exact (proj1 (proj2 is_excluded_is_containment) "a.txt" "backup.txt" H1).
  - exact (proj2 (proj2 is_excluded_is_containment) "backup.txt" ".txt" "tx"
             H2 H3).
Defined.

Lemma append_cancel_l (a x y : string) : a ++ x = a ++ y -> x = y.
Proof.
  induction a as [|c a IH]; cbn; intros H; [exact H|].
  injection H as H. exact (IH H).
Qed.

(** X20. Two entries of one directory get two paths as long as both joined
    paths fit the buffer: the path determines the entry name. Past the
    buffer this fails: names that differ only beyond the cut share a
    path. *)
Theorem fitting_paths_are_distinct :
  (forall (dir d_name d_name' : string),
      (String.length (dir ++ "\" ++ d_name) <= 1023)%nat ->
      (String.length (dir ++ "\" ++ d_name') <= 1023)%nat ->
      make_path dir d_name = make_path dir d_name' ->
      d_name = d_name')
  /\ (forall (dir d_name tail tail' : string),
         (1023 <= String.length (dir ++ "\" ++ d_name))%nat ->
         make_path dir (d_name ++ tail) = make_path dir (d_name ++ tail')).
Proof.
  split.
  - intros dir d_name d_name' H1 H2. rewrite !make_path_truncate.
    rewrite (truncate_short _ _ H1), (truncate_short _ _ H2).
    intros E. apply append_cancel_l in E. now injection E.
  - intros dir d_name tail tail' Hlong. rewrite !make_path_truncate.
    pose proof truncate_app as T.
    change (dir ++ "\" ++ d_name ++ tail)
      with (dir ++ String "\" (d_name ++ tail)).
    change (dir ++ "\" ++ d_name ++ tail')
      with (dir ++ String "\" (d_name ++ tail')).
    replace (dir ++ String "\" (d_name ++ tail))
      with ((dir ++ "\" ++ d_name) ++ tail)
      by (rewrite !string_app_assoc; reflexivity).
    replace (dir ++ String "\" (d_name ++ tail'))
      with ((dir ++ "\" ++ d_name) ++ tail')
      by (rewrite !string_app_assoc; reflexivity).
    rewrite (T 1023%nat (dir ++ "\" ++ d_name) tail Hlong).
    rewrite (T 1023%nat (dir ++ "\" ++ d_name) tail' Hlong). reflexivity.
Qed.

Lemma fitting_paths_are_distinct_witness :
  ((String.length ("root" ++ "\" ++ "a.txt") <= 1023)%nat
   /\ (String.length ("root" ++ "\" ++ "a.txt") <= 1023)%nat
   /\ make_path "root" "a.txt" = make_path "root" "a.txt"
   /\ (1023 <= String.length ("root" ++ "\" ++ long_name))%nat)
  /\ "a.txt" = "a.txt"
  /\ make_path "root" (long_name ++ "1") = make_path "root" (long_name ++ "2").
Proof.
  assert (H1 : (String.length ("root" ++ "\" ++ "a.txt") <= 1023)%nat)
    by (apply Nat.leb_le; vm_compute; reflexivity).
  assert (H2 : make_path "root" "a.txt" = make_path "root" "a.txt")
    by reflexivity.
  assert (H3 : (1023 <= String.length ("root" ++ "\" ++ long_name))%nat)
    by (apply Nat.leb_le; vm_compute; reflexivity).
  split; [repeat split; assumption|].
  split.
  - exact (proj1 fitting_paths_are_distinct "root" "a.txt" "a.txt" H1 H1 H2).
  - exact (proj2 fitting_paths_are_distinct "root" long_name "1" "2" H3).
Defined.
